(** * Inventory core of the multi-warehouse inventory system

    A shallow embedding of [lib/data.js]: the stock-transfer executor
    ([performStockTransfer]), the stock-health functions ([categorizeStock],
    [recommendReorder]), the alert reconciler ([generateAlerts]) and the alert
    workflow manager ([updateAlertStatus]), together with the properties the
    design document states about them.  The derived metrics of the dashboard
    ([getTotalStockForProduct], [getWarehouseStockTotals],
    [getInventoryOverview]) and the three API routes that call the data layer
    (transfer creation, transfer history, alerts) follow, with the
    properties the code itself shows.

    Modelling conventions.
    - Quantities, identifiers and reorder points are the integers the data
      files hold; they are modelled as [Z].  On such values [Number(x)] is the
      identity and [x || 0] is [x].  The fractional thresholds [0.5 * rp] and
      [1.5 * rp] are computed in [Q].
    - The fields of a transfer request arrive from a request body; the model
      takes the value [Number(field)] of each, a [num]: a finite integer, one
      of the two infinities, or NaN.
    - The five JSON files are the fields of a [Store].  The asynchronous
      functions are computations in a state-and-error monad [M] over the
      store: [getX] reads a file, [saveX] rewrites it, [throw] aborts and
      keeps the store as it is at that point.
    - Clock readings ([Date.now()], [new Date().toISOString()]) are inputs.
    - Objects that the code mutates through several references (the alerts
      held both by the [updated] array and by the [alertByProduct] map) live
      in an explicit heap, and the references are addresses into it. *)

From Stdlib Require Import QArith Qround Ascii String.
From stdpp Require Import gmap strings list pretty.

Local Open Scope Z_scope.

(* ------------------------------------------------------------------ *)
(** ** JavaScript numbers as they reach the core *)

(** The value of [Number(x)] for a request field [x]. *)
Inductive num : Set :=
| Finite (z : Z)
| PosInf
| NegInf
| NaN.

(** [Number.isFinite]. *)
Definition isFinite (n : num) : bool :=
  match n with
  | Finite _ => true
  | _ => false
  end.

(** The relational operator [a < b] on numbers; false when either is NaN. *)
Definition num_ltb (a b : num) : bool :=
  match a, b with
  | NaN, _ | _, NaN => false
  | Finite x, Finite y => x <? y
  | NegInf, NegInf => false
  | NegInf, _ => true
  | _, PosInf => match a with PosInf => false | _ => true end
  | _, _ => false
  end.

(** The relational operator [a <= b] on numbers; false when either is NaN. *)
Definition num_leb (a b : num) : bool :=
  match a, b with
  | NaN, _ | _, NaN => false
  | Finite x, Finite y => x <=? y
  | NegInf, _ => true
  | _, PosInf => true
  | _, _ => false
  end.

(** [a < b] on exact rationals, as a boolean. *)
Definition Qltb (a b : Q) : bool := negb (Qle_bool b a).

(* ------------------------------------------------------------------ *)
(** ** Records of the persisted collections *)

Module Product.
(** Fields of [products.json] that the core reads. *)
Record t : Set := mk {
  id : Z;
  sku : string;
  name : string;
  reorderPoint : Z
}.
End Product.

Module Warehouse.
Record t : Set := mk {
  id : Z;
  name : string
}.
End Warehouse.

Module StockLine.
Record t : Set := mk {
  id : Z;
  productId : Z;
  warehouseId : Z;
  quantity : Z
}.

Definition set_quantity (q : Z) (s : t) : t :=
  mk (id s) (productId s) (warehouseId s) q.
End StockLine.

Module TransferRecord.
Record t : Set := mk {
  id : string;
  productId : Z;
  fromWarehouseId : Z;
  toWarehouseId : Z;
  quantity : Z;
  createdAt : string;
  status : string
}.
End TransferRecord.

(** Result of [categorizeStock]. *)
Inductive Category : Set := critical | low | adequate | overstocked.

Module Alert.
Record t : Set := mk {
  id : string;
  productId : Z;
  sku : string;
  productName : string;
  reorderPoint : Z;
  totalStock : Z;
  category : Category;
  recommendedQty : Z;
  note : string;
  workflowStatus : string;
  createdAt : string;
  updatedAt : string;
  comment : option string
}.

Definition set_updatedAt (now : string) (a : t) : t :=
  mk (id a) (productId a) (sku a) (productName a) (reorderPoint a)
     (totalStock a) (category a) (recommendedQty a) (note a)
     (workflowStatus a) (createdAt a) now (comment a).
End Alert.

(** A transfer request after [Number(.)] has been applied to each field. *)
Record TransferRequest : Set := mkRequest {
  req_productId : num;
  req_fromWarehouseId : num;
  req_toWarehouseId : num;
  req_quantity : num
}.

(* ------------------------------------------------------------------ *)
(** ** The persisted store and the monad of the data layer *)

Record Store : Set := mkStore {
  products : list Product.t;
  warehouses : list Warehouse.t;
  stock : list StockLine.t;
  transfers : list TransferRecord.t;
  alerts : list Alert.t
}.

(** The errors thrown by the core, one per message of the source. *)
Inductive Error : Set :=
| InvalidProductId
| InvalidWarehouseId
| SameWarehouse
| InvalidQuantity
| ProductNotFound
| SourceWarehouseNotFound
| DestinationWarehouseNotFound
| InsufficientStock
| SourceStockRecordNotFound
| AlertNotFound
| InvalidWorkflowStatus.

Definition message (e : Error) : string :=
  match e with
  | InvalidProductId => "Invalid productId"
  | InvalidWarehouseId => "Invalid warehouseId"
  | SameWarehouse => "Source and destination warehouses must differ"
  | InvalidQuantity => "Quantity must be a positive number"
  | ProductNotFound => "Product not found"
  | SourceWarehouseNotFound => "Source warehouse not found"
  | DestinationWarehouseNotFound => "Destination warehouse not found"
  | InsufficientStock => "Insufficient stock in source warehouse"
  | SourceStockRecordNotFound => "Source stock record not found"
  | AlertNotFound => "Alert not found"
  | InvalidWorkflowStatus => "Invalid workflow status"
  end.

(** The error kinds of the design document. *)
Inductive ErrorKind : Set :=
  ValidationError | NotFoundError | ConflictError | IntegrityError.

Definition kind (e : Error) : ErrorKind :=
  match e with
  | InvalidProductId | InvalidWarehouseId | SameWarehouse
  | InvalidQuantity | InvalidWorkflowStatus => ValidationError
  | ProductNotFound | SourceWarehouseNotFound
  | DestinationWarehouseNotFound | AlertNotFound => NotFoundError
  | InsufficientStock => ConflictError
  | SourceStockRecordNotFound => IntegrityError
  end.

(** A computation reads and rewrites the store and either throws or returns. *)
Definition M (A : Type) : Type := Store -> Store * (Error + A).

Definition ret {A} (x : A) : M A := fun s => (s, inr x).

Definition throw {A} (e : Error) : M A := fun s => (s, inl e).

Definition bind {A B} (m : M A) (k : A -> M B) : M B :=
  fun s =>
    match m s with
    | (s', inl e) => (s', inl e)
    | (s', inr x) => k x s'
    end.

(** With these instances stdpp's notation [x ← m; k] is [bind m (fun x => k)]
    and [m;; k] is [bind m (fun _ => k)]. *)
#[global] Instance M_ret : MRet M := @ret.
#[global] Instance M_bind : MBind M := fun A B k m => bind m k.

Definition getProducts : M (list Product.t) := fun s => (s, inr (products s)).
Definition getWarehouses : M (list Warehouse.t) := fun s => (s, inr (warehouses s)).
Definition getStock : M (list StockLine.t) := fun s => (s, inr (stock s)).
Definition getTransfers : M (list TransferRecord.t) := fun s => (s, inr (transfers s)).
Definition getAlerts : M (list Alert.t) := fun s => (s, inr (alerts s)).

Definition saveStock (l : list StockLine.t) : M unit :=
  fun s => (mkStore (products s) (warehouses s) l (transfers s) (alerts s), inr tt).

Definition saveTransfers (l : list TransferRecord.t) : M unit :=
  fun s => (mkStore (products s) (warehouses s) (stock s) l (alerts s), inr tt).

Definition saveAlerts (l : list Alert.t) : M unit :=
  fun s => (mkStore (products s) (warehouses s) (stock s) (transfers s) l, inr tt).

(* ------------------------------------------------------------------ *)
(** ** Derived totals *)

(** [stock.filter(s => s.productId === pid).reduce((sum, s) => sum + s.quantity, 0)],
    the total of [getTotalStockForProduct] and of the loop of [generateAlerts]. *)
Definition totalStockForProduct (pid : Z) (stock : list StockLine.t) : Z :=
  foldl (fun sum s => sum + StockLine.quantity s) 0
        (filter (fun s => StockLine.productId s = pid) stock).

Arguments totalStockForProduct : simpl never.

(* ------------------------------------------------------------------ *)
(** ** Stock-health categorization and reorder recommendation *)

(** [rp] is [Number(reorderPoint) || 0], the reorder point itself on an
    integer; [0.5 * rp] is computed in [Q]. *)
Definition categorizeStock (total reorderPoint : Z) : Category :=
  let rp := reorderPoint in
  if rp <=? 0 then adequate
  else if Qltb (inject_Z total) ((1 # 2) * inject_Z rp) then critical
  else if total <? rp then low
  else if total <? 2 * rp then adequate
  else overstocked.

(** The notes of [recommendReorder]; [pretty] prints an integer in decimal,
    as the template literal does. *)
Definition note_no_reorder_point : string := "No reorder point set".
Definition note_no_action : string := "Adequate or overstocked — no action".
Definition note_raise_critical (target : Z) : string :=
  "Raise to ~1.5× RP (" +:+ pretty target +:+ ")".
Definition note_raise_low (target : Z) : string :=
  "Raise to RP (" +:+ pretty target +:+ ")".

(** [Math.ceil(1.5 * rp)]. *)
Definition critical_target (rp : Z) : Z := Qceiling ((3 # 2) * inject_Z rp).

(** Returns the pair [(recommendedQty, note)]. *)
Definition recommendReorder (total reorderPoint : Z) : Z * string :=
  let rp := reorderPoint in
  if rp <=? 0 then (0, note_no_reorder_point)
  else
    match categorizeStock total rp with
    | critical =>
        let target := critical_target rp in
        (Z.max 0 (target - total), note_raise_critical target)
    | low =>
        let target := rp in
        (Z.max 0 (target - total), note_raise_low target)
    | _ => (0, note_no_action)
    end.

(* ------------------------------------------------------------------ *)
(** ** String helpers used to build identifiers *)

(** [s.padStart(targetLength, pad)] for a one-character pad. *)
Definition padStart (targetLength : nat) (pad : ascii) (s : string) : string :=
  string_of_list_ascii (replicate (targetLength - String.length s) pad) +:+ s.

(** [s.replace(/c/g, '')]. *)
Fixpoint remove_char (c : ascii) (s : string) : string :=
  match s with
  | EmptyString => EmptyString
  | String c' s' =>
      if Ascii.eqb c c' then remove_char c s' else String c' (remove_char c s')
  end.

(** [s.slice(0, n)]. *)
Definition slice0 (n : nat) (s : string) : string := String.substring 0 n s.

(* ------------------------------------------------------------------ *)
(** ** Transfer executor *)

(** The clock readings of one call of [performStockTransfer]: [Date.now()]
    for the identifier of a created stock line, and the two readings of
    [new Date().toISOString()] for the identifier and the creation time of
    the transfer record. *)
Record TransferClock : Set := mkClock {
  clock_dateNow : Z;
  clock_idIso : string;
  clock_createdIso : string
}.

Definition transfer_id (iso : string) (count : nat) : string :=
  let seq := padStart 4 "0" (pretty (count + 1)%nat) in
  "T-" +:+ remove_char "-" (slice0 10 iso) +:+ "-" +:+ seq.

(** The stock line of a product at a warehouse, as [stock.find] returns it:
    the first match, with its position in the array. *)
Definition find_line (pid wid : Z) (stock : list StockLine.t)
  : option (nat * StockLine.t) :=
  list_find
    (fun s => StockLine.productId s = pid ∧ StockLine.warehouseId s = wid) stock.

Definition performStockTransfer (clk : TransferClock) (req : TransferRequest)
  : M (TransferRecord.t * list StockLine.t) :=
  products ← getProducts;
  warehouses ← getWarehouses;
  stock ← getStock;
  transfers ← getTransfers;
  match req_productId req with
  | Finite pid =>
    match req_fromWarehouseId req, req_toWarehouseId req with
    | Finite fromId, Finite toId =>
      if bool_decide (fromId = toId) then throw SameWarehouse else
      match req_quantity req with
      | Finite qty =>
        if qty <=? 0 then throw InvalidQuantity else
        match list_find (fun p => Product.id p = pid) products with
        | None => throw ProductNotFound
        | Some _ =>
          let fromWh := list_find (fun w => Warehouse.id w = fromId) warehouses in
          let toWh := list_find (fun w => Warehouse.id w = toId) warehouses in
          if negb (bool_decide (is_Some fromWh)) then throw SourceWarehouseNotFound else
          if negb (bool_decide (is_Some toWh)) then throw DestinationWarehouseNotFound else
          let source := find_line pid fromId stock in
          let dest := find_line pid toId stock in
          let sourceQty :=
            match source with
            | Some (_, s) => StockLine.quantity s
            | None => 0
            end in
          if sourceQty <? qty then throw InsufficientStock else
          match source with
          | None => throw SourceStockRecordNotFound
          | Some (i, _) =>
            (* source.quantity = sourceQty - qty *)
            let stock1 := alter (StockLine.set_quantity (sourceQty - qty)) i stock in
            let stock2 :=
              match dest with
              | Some (j, _) =>
                  (* dest.quantity = Number(dest.quantity) + qty *)
                  alter (fun d => StockLine.set_quantity (StockLine.quantity d + qty) d)
                        j stock1
              | None =>
                  (* stock.push({ id: Date.now(), productId, warehouseId, quantity }) *)
                  stock1 ++ [StockLine.mk (clock_dateNow clk) pid toId qty]
              end in
            saveStock stock2;;
            let transferRecord :=
              TransferRecord.mk
                (transfer_id (clock_idIso clk) (length transfers))
                pid fromId toId qty (clock_createdIso clk) "COMPLETED" in
            let updatedTransfers := transferRecord :: transfers in
            saveTransfers updatedTransfers;;
            mret (transferRecord, stock2)
          end
        end
      | _ => throw InvalidQuantity
      end
    | _, _ => throw InvalidWarehouseId
    end
  | _ => throw InvalidProductId
  end.

(** [quantityOf(productId, warehouseId)] of the design document: the quantity
    of the line, 0 when there is none. *)
Definition quantityOf (pid wid : Z) (stock : list StockLine.t) : Z :=
  match find_line pid wid stock with
  | Some (_, s) => StockLine.quantity s
  | None => 0
  end.

(* ------------------------------------------------------------------ *)
(** ** Alert reconciler *)

(** [category === 'critical' || category === 'low']. *)
Definition critical_or_low (c : Category) : bool :=
  match c with
  | critical | low => true
  | _ => false
  end.

(** The working state of one pass of [generateAlerts].  [heap] holds the
    alert objects in allocation order; an address is a position in it.
    [updated] is the array of references that is saved at the end, and
    [alertByProduct] is the [Map] from product id to a reference. *)
Record GenState : Type := mkGen {
  heap : list Alert.t;
  updated : list nat;
  alertByProduct : gmap Z nat
}.

(** [new Map(existingAlerts.map(a => [a.productId, a]))], where the objects
    parsed from the file sit at the addresses [base], [base + 1], ... : a
    later entry for the same key replaces an earlier one. *)
Fixpoint map_of_alerts (base : nat) (l : list Alert.t) (m : gmap Z nat)
  : gmap Z nat :=
  match l with
  | [] => m
  | a :: l' => map_of_alerts (S base) l' (<[Alert.productId a := base]> m)
  end.

Definition initial_state (existingAlerts : list Alert.t) : GenState :=
  mkGen existingAlerts
        (seq 0 (length existingAlerts))
        (map_of_alerts 0 existingAlerts ∅).

(** The assignments of the refresh branch, guarded as in the source. *)
Definition refresh_alert (total : Z) (category : Category)
    (recommendedQty : Z) (note now : string) (existing : Alert.t) : Alert.t :=
  if bool_decide (Alert.workflowStatus existing ≠ "RESOLVED") then
    Alert.mk (Alert.id existing) (Alert.productId existing) (Alert.sku existing)
             (Alert.productName existing) (Alert.reorderPoint existing)
             total category recommendedQty note
             (Alert.workflowStatus existing) (Alert.createdAt existing)
             now (Alert.comment existing)
  else existing.

(** The assignments of the auto-resolve branch, guarded as in the source. *)
Definition resolve_alert (now : string) (existing : Alert.t) : Alert.t :=
  if bool_decide (Alert.workflowStatus existing ≠ "RESOLVED") then
    Alert.mk (Alert.id existing) (Alert.productId existing) (Alert.sku existing)
             (Alert.productName existing) (Alert.reorderPoint existing)
             (Alert.totalStock existing) (Alert.category existing)
             (Alert.recommendedQty existing) (Alert.note existing)
             "RESOLVED" (Alert.createdAt existing)
             now (Alert.comment existing)
  else existing.

Definition new_alert (now : string) (p : Product.t) (total : Z)
    (category : Category) (recommendedQty : Z) (note : string) : Alert.t :=
  Alert.mk ("A-" +:+ now +:+ "-" +:+ pretty (Product.id p))
           (Product.id p) (Product.sku p) (Product.name p)
           (Product.reorderPoint p)
           total category recommendedQty note
           "NEW" now now None.

(** The body of the loop [for (const p of products)]. *)
Definition reconcile_product (now : string) (stock : list StockLine.t)
    (st : GenState) (p : Product.t) : GenState :=
  let pid := Product.id p in
  let total := totalStockForProduct pid stock in
  let category := categorizeStock total (Product.reorderPoint p) in
  let '(recommendedQty, note) := recommendReorder total (Product.reorderPoint p) in
  let existing := alertByProduct st !! pid in
  if critical_or_low category then
    match existing with
    | Some r =>
        mkGen (alter (refresh_alert total category recommendedQty note now) r (heap st))
              (updated st) (alertByProduct st)
    | None =>
        let alert := new_alert now p total category recommendedQty note in
        let r := length (heap st) in
        (* updated.unshift(alert); alertByProduct.set(pid, alert) *)
        mkGen (heap st ++ [alert]) (r :: updated st) (<[pid := r]> (alertByProduct st))
    end
  else
    match existing with
    | Some r =>
        mkGen (alter (resolve_alert now) r (heap st))
              (updated st) (alertByProduct st)
    | None => st
    end.

(** An array of references as it is serialised: each reference replaced by
    the object it points to (a reference always points into the heap). *)
Fixpoint deref {A} (h : list A) (u : list nat) : list A :=
  match u with
  | [] => []
  | r :: u' =>
      match h !! r with
      | Some x => x :: deref h u'
      | None => deref h u'
      end
  end.

Definition snapshot (st : GenState) : list Alert.t :=
  deref (heap st) (updated st).

Definition generateAlerts (now : string) : M (list Alert.t) :=
  products ← getProducts;
  stock ← getStock;
  existingAlerts ← getAlerts;
  let final := foldl (reconcile_product now stock) (initial_state existingAlerts) products in
  let updated := snapshot final in
  saveAlerts updated;;
  mret updated.

(* ------------------------------------------------------------------ *)
(** ** Alert workflow manager *)

Definition valid : list string := ["NEW"; "ACKNOWLEDGED"; "ORDERED"; "RESOLVED"].

(** Truthiness of the optional [comment] argument: absent and the empty
    string are falsy. *)
Definition truthy (comment : option string) : bool :=
  match comment with
  | Some c => negb (String.eqb c "")
  | None => false
  end.

Definition apply_status (now workflowStatus : string) (comment : option string)
    (alert : Alert.t) : Alert.t :=
  Alert.mk (Alert.id alert) (Alert.productId alert) (Alert.sku alert)
           (Alert.productName alert) (Alert.reorderPoint alert)
           (Alert.totalStock alert) (Alert.category alert)
           (Alert.recommendedQty alert) (Alert.note alert)
           workflowStatus (Alert.createdAt alert) now
           (if truthy comment then comment else Alert.comment alert).

Definition updateAlertStatus (now id workflowStatus : string)
    (comment : option string) : M Alert.t :=
  alerts ← getAlerts;
  match list_find (fun a => Alert.id a = id) alerts with
  | None => throw AlertNotFound
  | Some (i, alert) =>
      if negb (bool_decide (workflowStatus ∈ valid)) then throw InvalidWorkflowStatus
      else
        let alert' := apply_status now workflowStatus comment alert in
        saveAlerts (<[i := alert']> alerts);;
        mret alert'
  end.

(* ------------------------------------------------------------------ *)
(** ** Sample data *)

Module Sample.
Definition P : Product.t := Product.mk 1 "SKU-1" "P" 100.
Definition W1 : Warehouse.t := Warehouse.mk 1 "W1".
Definition W2 : Warehouse.t := Warehouse.mk 2 "W2".
Definition W3 : Warehouse.t := Warehouse.mk 3 "W3".
Definition lines : list StockLine.t :=
  [StockLine.mk 11 1 1 30; StockLine.mk 12 1 2 10].
Definition store : Store := mkStore [P] [W1; W2; W3] lines [] [].
Definition clock : TransferClock :=
  mkClock 1700000000000 "2025-01-02T10:00:00.000Z" "2025-01-02T10:00:00.001Z".
Definition t1 : string := "2025-01-02T10:00:00.000Z".
Definition t2 : string := "2025-01-03T08:30:00.000Z".

(** A second product, low on stock, next to the first. *)
Definition P2 : Product.t := Product.mk 2 "SKU-2" "P2" 50.
Definition store2 : Store :=
  mkStore [P; P2] [W1; W2; W3] (lines ++ [StockLine.mk 13 2 1 30]) [] [].

(** The alert of product [P] from an earlier breach, resolved since. *)
Definition resolved_alert : Alert.t :=
  Alert.mk "A-2024-12-01T09:00:00.000Z-1" 1 "SKU-1" "P" 100 120 low 0
           "Raise to RP (100)" "RESOLVED"
           "2024-12-01T09:00:00.000Z" "2024-12-20T09:00:00.000Z" None.
Definition store_resolved : Store :=
  mkStore [P] [W1; W2; W3] lines [] [resolved_alert].

(** A catalog outside the data model: two entries with the id of [P] and
    different reorder points. *)
Definition store_duplicate_ids : Store :=
  mkStore [Product.mk 1 "SKU-1" "P" 10; P] [W1; W2; W3] lines [] [].
End Sample.

(* ------------------------------------------------------------------ *)
(** ** Vocabulary of the stated properties *)

(** The ledger after an accepted transfer of [qty] from the line at [i]. *)
Definition moved_stock (clk : TransferClock) (pid toId qty : Z) (i : nat)
    (src : StockLine.t) (stock : list StockLine.t) : list StockLine.t :=
  let stock1 :=
    alter (StockLine.set_quantity (StockLine.quantity src - qty)) i stock in
  match find_line pid toId stock with
  | Some (j, _) =>
      alter (fun d => StockLine.set_quantity (StockLine.quantity d + qty) d) j stock1
  | None => stock1 ++ [StockLine.mk (clock_dateNow clk) pid toId qty]
  end.

(** Every stock line holds a non-negative quantity. *)
Definition ledger_nonneg (stock : list StockLine.t) : Prop :=
  Forall (fun s => 0 <= StockLine.quantity s) stock.

(** [transfers_reach st st'] : [st'] is obtained from [st] by a sequence of
    calls of [performStockTransfer] each of which returned a record. *)
Inductive transfers_reach (st : Store) : Store → Prop :=
| reach_start : transfers_reach st st
| reach_transfer (st' st'' : Store) (clk : TransferClock)
    (req : TransferRequest) (res : TransferRecord.t * list StockLine.t) :
    transfers_reach st st' →
    performStockTransfer clk req st' = (st'', inr res) →
    transfers_reach st st''.

(** The three rejection conditions of the design document: a quantity that
    is not positive, equal warehouses, or a quantity above the quantity
    available at the source. *)
Definition must_reject (req : TransferRequest) (st : Store) : Prop :=
  num_leb (req_quantity req) (Finite 0) = true ∨
  req_fromWarehouseId req = req_toWarehouseId req ∨
  ∃ pid fromId,
    req_productId req = Finite pid ∧
    req_fromWarehouseId req = Finite fromId ∧
    num_ltb (Finite (quantityOf pid fromId (stock st))) (req_quantity req) = true.

(** Checks 1 to 5 of the transfer validation: the three identifiers are
    finite, the warehouses differ, the quantity is finite and positive, the
    product and both warehouses are in the catalog. *)
Definition passes_checks_1_to_5 (req : TransferRequest) (st : Store)
    (pid fromId toId qty : Z) : Prop :=
  req = mkRequest (Finite pid) (Finite fromId) (Finite toId) (Finite qty) ∧
  fromId ≠ toId ∧
  0 < qty ∧
  (∃ p, p ∈ products st ∧ Product.id p = pid) ∧
  (∃ w, w ∈ warehouses st ∧ Warehouse.id w = fromId) ∧
  (∃ w, w ∈ warehouses st ∧ Warehouse.id w = toId).

(** Position of the last alert of product [pid] in an array of alerts. *)
Fixpoint last_index (pid : Z) (l : list Alert.t) : option nat :=
  match l with
  | [] => None
  | a :: l' =>
      match last_index pid l' with
      | Some j => Some (S j)
      | None => if decide (Alert.productId a = pid) then Some 0%nat else None
      end
  end.

(** The loop body of [generateAlerts] seen on the serialised array: the
    alert that [alertByProduct.get(pid)] denotes is the last alert of the
    product in the array ([reconcile_product_snapshot] proves it). *)
Definition reconcile_array (now : string) (stock : list StockLine.t)
    (l : list Alert.t) (p : Product.t) : list Alert.t :=
  let pid := Product.id p in
  let total := totalStockForProduct pid stock in
  let category := categorizeStock total (Product.reorderPoint p) in
  let '(recommendedQty, note) := recommendReorder total (Product.reorderPoint p) in
  if critical_or_low category then
    match last_index pid l with
    | Some j => alter (refresh_alert total category recommendedQty note now) j l
    | None => new_alert now p total category recommendedQty note :: l
    end
  else
    match last_index pid l with
    | Some j => alter (resolve_alert now) j l
    | None => l
    end.

(** The references of a working state are distinct and valid, and the map
    sends a product to the reference of its last alert in the array. *)
Definition state_ok (st : GenState) : Prop :=
  NoDup (updated st) ∧
  Forall (fun r => (r < length (heap st))%nat) (updated st) ∧
  ∀ pid, alertByProduct st !! pid =
         last_index pid (snapshot st) ≫= (fun j => updated st !! j).

(** The alerts persisted by a call of [generateAlerts] at time [now]. *)
Definition alerts_after_generate (now : string) (st : Store) : list Alert.t :=
  alerts (fst (generateAlerts now st)).

(** The alerts persisted after a call of [updateAlertStatus], whether it
    returned or threw. *)
Definition alerts_after_update (now id workflowStatus : string)
    (comment : option string) (st : Store) : list Alert.t :=
  alerts (fst (updateAlertStatus now id workflowStatus comment st)).

(** The alert collections reachable from the empty one by calls of
    [generateAlerts] and [updateAlertStatus]; the catalog and the ledger of
    the store are arbitrary at each call. *)
Inductive alerts_reachable : list Alert.t → Prop :=
| reachable_empty : alerts_reachable []
| reachable_generate (st : Store) (now : string) :
    alerts_reachable (alerts st) →
    alerts_reachable (alerts_after_generate now st)
| reachable_update (st : Store) (now id workflowStatus : string)
    (comment : option string) :
    alerts_reachable (alerts st) →
    alerts_reachable (alerts_after_update now id workflowStatus comment st).

(** What a second pass at time [now] may do to an alert [a] left by a first
    pass: nothing, or, for an unresolved alert of category critical or low,
    overwrite [updatedAt] with [now]. *)
Definition restamped (now : string) (a b : Alert.t) : Prop :=
  b = a ∨
  (Alert.workflowStatus a ≠ "RESOLVED" ∧
   critical_or_low (Alert.category a) = true ∧
   b = Alert.set_updatedAt now a).

(** The array [l] already shows what the loop body computes for product
    [p]: the alert of the product, if there is one, is resolved or carries
    the current total, category and recommendation of a critical or low
    product; if there is none the product is adequate or overstocked. *)
Definition settled (stock : list StockLine.t) (p : Product.t)
    (l : list Alert.t) : Prop :=
  let total := totalStockForProduct (Product.id p) stock in
  let category := categorizeStock total (Product.reorderPoint p) in
  let rec := recommendReorder total (Product.reorderPoint p) in
  match last_index (Product.id p) l with
  | Some j =>
      ∃ a, l !! j = Some a ∧
           (Alert.workflowStatus a = "RESOLVED" ∨
            (critical_or_low category = true ∧
             Alert.workflowStatus a ≠ "RESOLVED" ∧
             Alert.totalStock a = total ∧
             Alert.category a = category ∧
             Alert.recommendedQty a = fst rec ∧
             Alert.note a = snd rec))
  | None => critical_or_low category = false
  end.

(* ------------------------------------------------------------------ *)
(** ** Derived metrics of the dashboard *)

(** [getTotalStockForProduct(productId)]. *)
Definition getTotalStockForProduct (productId : Z) : M Z :=
  stock ← getStock;
  mret (totalStockForProduct productId stock).

(** [stock.filter(s => s.warehouseId === wid).reduce((sum, s) => sum + s.quantity, 0)],
    the inner total of [getWarehouseStockTotals]. *)
Definition warehouseStock (wid : Z) (stock : list StockLine.t) : Z :=
  foldl (fun sum s => sum + StockLine.quantity s) 0
        (filter (fun s => StockLine.warehouseId s = wid) stock).

Arguments warehouseStock : simpl never.

Module WarehouseTotal.
(** A row [{ warehouseId, name, stock }] of [getWarehouseStockTotals]. *)
Record t : Set := mk {
  warehouseId : Z;
  name : string;
  stock : Z
}.
End WarehouseTotal.

Definition getWarehouseStockTotals : M (list WarehouseTotal.t) :=
  warehouses ← getWarehouses;
  stock ← getStock;
  mret ((fun wh =>
           let totalQty := warehouseStock (Warehouse.id wh) stock in
           WarehouseTotal.mk (Warehouse.id wh) (Warehouse.name wh) totalQty)
          <$> warehouses).

Module OverviewRow.
(** A row [{ ...p, totalQuantity, isLowStock }] of [getInventoryOverview]. *)
Record t : Set := mk {
  product : Product.t;
  totalQuantity : Z;
  isLowStock : bool
}.
End OverviewRow.

Definition getInventoryOverview : M (list OverviewRow.t) :=
  products ← getProducts;
  stock ← getStock;
  mret ((fun p =>
           let totalQuantity := totalStockForProduct (Product.id p) stock in
           OverviewRow.mk p totalQuantity (totalQuantity <? Product.reorderPoint p))
          <$> products).

(** The total quantity of the lines that satisfy [P]: the shape shared by
    the per-product and the per-warehouse totals. *)
Definition selected_total (P : StockLine.t → Prop) `{∀ s, Decision (P s)}
    (l : list StockLine.t) : Z :=
  foldl (fun sum s => sum + StockLine.quantity s) 0 (filter P l).

(** The sum of a list of integers. *)
Definition sumZ (l : list Z) : Z := foldr Z.add 0 l.

(** The pair that identifies a stock line. *)
Definition line_key (s : StockLine.t) : Z * Z :=
  (StockLine.productId s, StockLine.warehouseId s).

(** How severe a category is, from overstocked to critical. *)
Definition severity (c : Category) : nat :=
  match c with
  | overstocked => 0
  | adequate => 1
  | low => 2
  | critical => 3
  end%nat.

(* ------------------------------------------------------------------ *)
(** ** Reading a sequence number back *)

Definition digit_value (c : ascii) : N :=
  match c with
  | "1" => 1 | "2" => 2 | "3" => 3 | "4" => 4 | "5" => 5
  | "6" => 6 | "7" => 7 | "8" => 8 | "9" => 9 | _ => 0
  end%char%N.

(** The number a string of decimal digits denotes. *)
Fixpoint decimal_value (s : string) : N :=
  match s with
  | EmptyString => 0
  | String c s' => digit_value c * 10 ^ N.of_nat (String.length s') + decimal_value s'
  end%N.

(** What follows the first dash of a string. *)
Fixpoint after_dash (s : string) : string :=
  match s with
  | EmptyString => EmptyString
  | String c s' => if Ascii.eqb c "-" then s' else after_dash s'
  end.

(** The sequence number written in a transfer identifier [T-<date>-<seq>]. *)
Definition id_sequence (id : string) : N :=
  match id with
  | String _ (String _ rest) => decimal_value (after_dash rest)
  | _ => 0%N
  end.

(** The characters of a string, all different from the dash. *)
Fixpoint dash_free (s : string) : Prop :=
  match s with
  | EmptyString => True
  | String c s' => c ≠ "-"%char ∧ dash_free s'
  end.

(** A log whose records carry, oldest first, the sequence numbers 1, 2, ...
    in their identifiers: what [performStockTransfer] builds from the empty
    log. *)
Inductive log_sequenced : list TransferRecord.t → Prop :=
| sequenced_nil : log_sequenced []
| sequenced_cons (r : TransferRecord.t) (l : list TransferRecord.t) (iso : string) :
    log_sequenced l →
    TransferRecord.id r = transfer_id iso (length l) →
    log_sequenced (r :: l).

(* ------------------------------------------------------------------ *)
(** ** What a pass of the reconciler may do to an alert *)

(** [touched now a b]: [b] is [a] after a pass at time [now].  The identity
    of the alert, its snapshot of the product and its comment stay; the pass
    either leaves the alert alone or stamps it with [now], and then the alert
    was not resolved, its workflow status is kept or becomes RESOLVED, and
    its category is kept or is critical or low. *)
Definition touched (now : string) (a b : Alert.t) : Prop :=
  Alert.id b = Alert.id a ∧
  Alert.productId b = Alert.productId a ∧
  Alert.sku b = Alert.sku a ∧
  Alert.productName b = Alert.productName a ∧
  Alert.reorderPoint b = Alert.reorderPoint a ∧
  Alert.createdAt b = Alert.createdAt a ∧
  Alert.comment b = Alert.comment a ∧
  (b = a ∨
   (Alert.updatedAt b = now ∧
    Alert.workflowStatus a ≠ "RESOLVED" ∧
    (Alert.workflowStatus b = Alert.workflowStatus a ∨
     Alert.workflowStatus b = "RESOLVED") ∧
    (Alert.category b = Alert.category a ∨
     critical_or_low (Alert.category b) = true))).

(** [created now a]: [a] was allocated by a pass at time [now]. *)
Definition created (now : string) (a : Alert.t) : Prop :=
  Alert.createdAt a = now ∧
  Alert.updatedAt a = now ∧
  Alert.comment a = None ∧
  critical_or_low (Alert.category a) = true ∧
  (Alert.workflowStatus a = "NEW" ∨ Alert.workflowStatus a = "RESOLVED").

(* ------------------------------------------------------------------ *)
(** ** The API routes *)

Module EnrichedTransfer.
(** An entry [{ ...t, productName, fromWarehouseName, toWarehouseName }] of
    the transfer history. *)
Record t : Set := mk {
  transfer : TransferRecord.t;
  productName : string;
  fromWarehouseName : string;
  toWarehouseName : string
}.
End EnrichedTransfer.

(** The JSON bodies the routes answer with. *)
Inductive Payload : Type :=
| ErrorBody (error : string)
| TransferBody (transfer : TransferRecord.t)
| AlertsBody (alerts : list Alert.t)
| AlertBody (alert : Alert.t)
| TransfersBody (entries : list EnrichedTransfer.t).

(** [res.status(code).json(body)]. *)
Record Response : Type := mkResponse {
  res_status : Z;
  res_body : Payload
}.

(** [s || fallback] on strings. *)
Definition or_else (s fallback : string) : string :=
  if String.eqb s "" then fallback else s.

(** [pages/api/transfers/create.js].  [body] holds [Number(field)] for the
    four fields of [req.body || {}]; a missing field is NaN. *)
Definition createTransferHandler (clk : TransferClock) (method : string)
    (body : TransferRequest) (st : Store) : Store * Response :=
  if negb (String.eqb method "POST") then
    (st, mkResponse 405 (ErrorBody "Method not allowed"))
  else
    match performStockTransfer clk body st with
    | (st', inr (transfer, _)) => (st', mkResponse 201 (TransferBody transfer))
    | (st', inl err) =>
        (st', mkResponse 400 (ErrorBody (or_else (message err) "Transfer failed")))
    end.

(** [products.find(p => p.id === id)?.name || String(id)] and the same for
    warehouses. *)
Definition product_name_or_id (products : list Product.t) (id : Z) : string :=
  match list_find (fun p => Product.id p = id) products with
  | Some (_, p) => or_else (Product.name p) (pretty id)
  | None => pretty id
  end.

Definition warehouse_name_or_id (warehouses : list Warehouse.t) (id : Z) : string :=
  match list_find (fun w => Warehouse.id w = id) warehouses with
  | Some (_, w) => or_else (Warehouse.name w) (pretty id)
  | None => pretty id
  end.

(** [pages/api/transfers/index.js]: the log, each record with the names of
    its product and warehouses. *)
Definition listTransfersHandler (method : string) (st : Store) : Store * Response :=
  if negb (String.eqb method "GET") then
    (st, mkResponse 405 (ErrorBody "Method not allowed"))
  else
    let enriched :=
      (fun t =>
         EnrichedTransfer.mk t
           (product_name_or_id (products st) (TransferRecord.productId t))
           (warehouse_name_or_id (warehouses st) (TransferRecord.fromWarehouseId t))
           (warehouse_name_or_id (warehouses st) (TransferRecord.toWarehouseId t)))
        <$> transfers st in
    (st, mkResponse 200 (TransfersBody enriched)).

(** The fields [{ id, workflowStatus, comment }] of the body of a POST to
    the alerts route; [None] is an absent field. *)
Record AlertsPostBody : Set := mkAlertsPost {
  post_id : option string;
  post_workflowStatus : option string;
  post_comment : option string
}.

(** [pages/api/alerts]: GET reconciles and returns the alerts, POST sets a
    workflow status; whatever the data layer throws becomes a 500. *)
Definition alertsHandler (now : string) (method : string)
    (body : AlertsPostBody) (st : Store) : Store * Response :=
  if String.eqb method "GET" then
    match generateAlerts now st with
    | (st', inr alerts) => (st', mkResponse 200 (AlertsBody alerts))
    | (st', inl err) =>
        (st', mkResponse 500 (ErrorBody (or_else (message err) "Alerts error")))
    end
  else if String.eqb method "POST" then
    match post_id body, post_workflowStatus body with
    | Some id, Some workflowStatus =>
        if negb (truthy (Some id)) || negb (truthy (Some workflowStatus)) then
          (st, mkResponse 400 (ErrorBody "id and workflowStatus are required"))
        else
          match updateAlertStatus now id workflowStatus (post_comment body) st with
          | (st', inr alert) => (st', mkResponse 200 (AlertBody alert))
          | (st', inl err) =>
              (st', mkResponse 500 (ErrorBody (or_else (message err) "Alerts error")))
          end
    | _, _ => (st, mkResponse 400 (ErrorBody "id and workflowStatus are required"))
    end
  else
    (st, mkResponse 405 (ErrorBody "Method not allowed")).

(* ================================================================== *)
(** * Properties *)

(* ------------------------------------------------------------------ *)
(** ** Rational thresholds *)

Lemma Qltb_lt (a b : Q) : Qltb a b = true ↔ (a < b)%Q.
Proof.
  unfold Qltb. rewrite negb_true_iff, <- not_true_iff_false, Qle_bool_iff.
  split; [apply Qnot_le_lt | apply Qlt_not_le].
Qed.

Lemma Qltb_ge (a b : Q) : Qltb a b = false ↔ (b <= a)%Q.
Proof.
  unfold Qltb. rewrite negb_false_iff. apply Qle_bool_iff.
Qed.

Lemma half_lt (total rp : Z) :
  (inject_Z total < (1 # 2) * inject_Z rp)%Q ↔ 2 * total < rp.
Proof. unfold Qlt. simpl. lia. Qed.

Lemma half_le (total rp : Z) :
  ((1 # 2) * inject_Z rp <= inject_Z total)%Q ↔ rp <= 2 * total.
Proof. unfold Qle. simpl. lia. Qed.

(** [Math.ceil(1.5 * rp)] in integer arithmetic. *)
Lemma critical_target_Z (rp : Z) : critical_target rp = (3 * rp + 1) / 2.
Proof.
  unfold critical_target, Qceiling, Qfloor.
  change (- ((3 # 2) * inject_Z rp))%Q with ((- (3 * rp)) # 2)%Q.
  cbv beta iota.
  generalize (3 * rp). intros z.
  pose proof (Z.div_mod (- z) 2 ltac:(lia)).
  pose proof (Z.mod_pos_bound (- z) 2 ltac:(lia)).
  pose proof (Z.div_mod (z + 1) 2 ltac:(lia)).
  pose proof (Z.mod_pos_bound (z + 1) 2 ltac:(lia)).
  lia.
Qed.

(* ------------------------------------------------------------------ *)
(** ** Categorization and recommendation *)

(** C7.  [categorizeStock] follows the threshold table, rows tried in
    order: adequate when the reorder point is not positive; otherwise
    critical when the total is below half the reorder point, low when it is
    at least half and below the reorder point, adequate when it is at least
    the reorder point and below twice it, overstocked from twice the reorder
    point on.  For a reorder point of 100 the totals 40, 60, 150 and 250 fall
    in the four categories in that order. *)
Theorem categorizeStock_threshold_table (total reorderPoint : Z) :
  (reorderPoint <= 0 → categorizeStock total reorderPoint = adequate) ∧
  (0 < reorderPoint →
   (inject_Z total < (1 # 2) * inject_Z reorderPoint)%Q →
   categorizeStock total reorderPoint = critical) ∧
  (((1 # 2) * inject_Z reorderPoint <= inject_Z total)%Q →
   total < reorderPoint →
   categorizeStock total reorderPoint = low) ∧
  (reorderPoint <= total → total < 2 * reorderPoint →
   categorizeStock total reorderPoint = adequate) ∧
  (0 < reorderPoint → 2 * reorderPoint <= total →
   categorizeStock total reorderPoint = overstocked) ∧
  categorizeStock 40 100 = critical ∧
  categorizeStock 60 100 = low ∧
  categorizeStock 150 100 = adequate ∧
  categorizeStock 250 100 = overstocked.
Proof.
  unfold categorizeStock.
  repeat split; try reflexivity; intros;
    repeat match goal with
    | H : (_ < _)%Q |- _ => apply half_lt in H
    | H : (_ <= _)%Q |- _ => apply half_le in H
    end;
    destruct (Z.leb_spec reorderPoint 0); try lia; try reflexivity;
    destruct (Qltb _ _) eqn:E;
    [ apply Qltb_lt, half_lt in E | apply Qltb_ge, half_le in E
    | apply Qltb_lt, half_lt in E | apply Qltb_ge, half_le in E
    | apply Qltb_lt, half_lt in E | apply Qltb_ge, half_le in E
    | apply Qltb_lt, half_lt in E | apply Qltb_ge, half_le in E ];
    try lia; try reflexivity;
    destruct (Z.ltb_spec total reorderPoint); try lia; try reflexivity;
    destruct (Z.ltb_spec total (2 * reorderPoint)); try lia; reflexivity.
Qed.

Lemma categorizeStock_threshold_table_witness :
  categorizeStock 40 100 = critical ∧
  categorizeStock 60 100 = low ∧
  categorizeStock 199 100 = adequate ∧
  categorizeStock 200 100 = overstocked ∧
  categorizeStock 5 0 = adequate.
Proof.
  pose proof (categorizeStock_threshold_table 40 100) as (_ & H1 & _).
  pose proof (categorizeStock_threshold_table 60 100) as (_ & _ & H2 & _).
  pose proof (categorizeStock_threshold_table 199 100) as (_ & _ & _ & H3 & _).
  pose proof (categorizeStock_threshold_table 200 100) as (_ & _ & _ & _ & H4 & _).
  pose proof (categorizeStock_threshold_table 5 0) as (H5 & _).
  refine (conj (H1 _ _) (conj (H2 _ _) (conj (H3 _ _) (conj (H4 _ _) (H5 _)))));
    solve [lia | reflexivity | discriminate].
Defined.



(* ------------------------------------------------------------------ *)
(** ** Totals over the ledger *)

Lemma foldl_quantity_acc (acc : Z) (l : list StockLine.t) :
  foldl (fun sum s => sum + StockLine.quantity s) acc l =
  acc + foldl (fun sum s => sum + StockLine.quantity s) 0 l.
Proof.
  revert acc. induction l as [|s l IH]; intros acc; simpl; [lia |].
  rewrite (IH (acc + _)), (IH (0 + _)). lia.
Qed.

Lemma total_nil (pid : Z) : totalStockForProduct pid [] = 0.
Proof. reflexivity. Qed.

Lemma total_cons (pid : Z) (s : StockLine.t) (l : list StockLine.t) :
  totalStockForProduct pid (s :: l) =
  (if decide (StockLine.productId s = pid) then StockLine.quantity s else 0)
  + totalStockForProduct pid l.
Proof.
  unfold totalStockForProduct. rewrite filter_cons.
  destruct (decide (StockLine.productId s = pid)); simpl; [| lia].
  rewrite foldl_quantity_acc. lia.
Qed.

Lemma total_app (pid : Z) (l1 l2 : list StockLine.t) :
  totalStockForProduct pid (l1 ++ l2) =
  totalStockForProduct pid l1 + totalStockForProduct pid l2.
Proof.
  induction l1 as [|s l1 IH]; simpl.
  - rewrite total_nil. lia.
  - rewrite !total_cons, IH. lia.
Qed.

(** Rewriting the quantity of one line moves the total of its product by the
    difference. *)
Lemma total_alter_quantity (pid : Z) (f : StockLine.t → Z) (i : nat)
    (s : StockLine.t) (l : list StockLine.t) :
  l !! i = Some s →
  totalStockForProduct pid
    (alter (fun d => StockLine.set_quantity (f d) d) i l) =
  totalStockForProduct pid l +
  (if decide (StockLine.productId s = pid) then f s - StockLine.quantity s else 0).
Proof.
  revert i. induction l as [|x l IH]; intros [|i] Hi; simpl in *; try discriminate.
  - injection Hi as ->. rewrite !total_cons. simpl.
    destruct (decide (StockLine.productId s = pid)); lia.
  - specialize (IH i Hi). unfold alter in IH. rewrite !total_cons, IH. lia.
Qed.

Lemma find_line_Some (pid wid : Z) (stock : list StockLine.t) (i : nat)
    (s : StockLine.t) :
  find_line pid wid stock = Some (i, s) →
  stock !! i = Some s ∧ StockLine.productId s = pid ∧ StockLine.warehouseId s = wid.
Proof.
  unfold find_line. intros H.
  apply list_find_Some in H as (Hi & [Hp Hw] & _). auto.
Qed.

(* ------------------------------------------------------------------ *)
(** ** The transfer executor *)

Ltac run_M :=
  unfold mbind, mret, M_bind, M_ret, bind, ret, throw,
    getProducts, getWarehouses, getStock, getTransfers, getAlerts,
    saveStock, saveTransfers, saveAlerts in *;
  simpl in *.

(** What a call did, read off its result: a call that throws leaves the
    store as it was; a call that returns passed every check, rewrote the
    ledger once and put one record in front of the log. *)
Lemma performStockTransfer_inv (clk : TransferClock) (req : TransferRequest)
    (st st' : Store) (r : Error + TransferRecord.t * list StockLine.t) :
  performStockTransfer clk req st = (st', r) →
  match r with
  | inl _ => st' = st
  | inr (record, stock2) =>
      ∃ pid fromId toId qty i src,
        req = mkRequest (Finite pid) (Finite fromId) (Finite toId) (Finite qty) ∧
        fromId ≠ toId ∧ 0 < qty ∧
        find_line pid fromId (stock st) = Some (i, src) ∧
        qty <= StockLine.quantity src ∧
        stock2 = moved_stock clk pid toId qty i src (stock st) ∧
        TransferRecord.quantity record = qty ∧
        st' = mkStore (products st) (warehouses st) stock2
                      (record :: transfers st) (alerts st)
  end.
Proof.
  unfold performStockTransfer, moved_stock. destruct st as [ps ws sk ts als].
  destruct req as [p f t q]. run_M.
  intros H.
  repeat (case_match; simplify_eq; try done).
  all: match goal with
       | Hs : find_line ?p ?f _ = Some (?i, ?src) |- ∃ _ _ _ _ _ _, mkRequest _ (Finite ?f) _ _ = _ ∧ _ =>
           exists p, f; eexists _, _; exists i, src
       end.
  all: repeat match goal with
       | H : find_line _ _ _ = _ |- _ => rewrite H; clear H
       | H : bool_decide _ = false |- _ => apply bool_decide_eq_false in H
       | H : (_ <=? _) = false |- _ => apply Z.leb_gt in H
       | H : (_ <? _) = false |- _ => apply Z.ltb_ge in H
       end.
  all: repeat split; auto; lia.
Qed.

Lemma moved_stock_total (clk : TransferClock) (pid fromId toId qty : Z)
    (i : nat) (src : StockLine.t) (stock : list StockLine.t) (q : Z) :
  find_line pid fromId stock = Some (i, src) →
  fromId ≠ toId →
  totalStockForProduct q (moved_stock clk pid toId qty i src stock) =
  totalStockForProduct q stock.
Proof.
  intros Hsrc Hne. apply find_line_Some in Hsrc as (Hi & Hp & Hw).
  unfold moved_stock.
  assert (totalStockForProduct q
            (alter (StockLine.set_quantity (StockLine.quantity src - qty)) i stock) =
          totalStockForProduct q stock +
          (if decide (StockLine.productId src = q) then - qty else 0)) as E1.
  { etrans; [exact (total_alter_quantity q
                      (fun _ => StockLine.quantity src - qty) i src stock Hi) |].
    destruct (decide (StockLine.productId src = q)); lia. }
  destruct (find_line pid toId stock) as [[j d]|] eqn:Hdst.
  - apply find_line_Some in Hdst as (Hj & Hp' & Hw').
    assert (i ≠ j) by (intros ->; congruence).
    rewrite (total_alter_quantity q (fun d => StockLine.quantity d + qty) j d).
    + rewrite E1, Hp, Hp'. destruct (decide (pid = q)); lia.
    + rewrite list_lookup_alter_ne by done. exact Hj.
  - rewrite total_app, E1, total_cons, total_nil, Hp. simpl.
    destruct (decide (pid = q)); lia.
Qed.

Lemma moved_stock_nonneg (clk : TransferClock) (pid fromId toId qty : Z)
    (i : nat) (src : StockLine.t) (stock : list StockLine.t) :
  ledger_nonneg stock →
  0 < qty → qty <= StockLine.quantity src →
  ledger_nonneg (moved_stock clk pid toId qty i src stock).
Proof.
  unfold ledger_nonneg, moved_stock. intros Hall Hpos Hle.
  assert (Forall (fun s => 0 <= StockLine.quantity s)
            (alter (StockLine.set_quantity (StockLine.quantity src - qty)) i stock))
    as Hall1.
  { apply Forall_alter; [exact Hall |]. intros x _ _. simpl. lia. }
  destruct (find_line pid toId stock) as [[j d]|].
  - apply Forall_alter; [exact Hall1 |]. intros x _ Hx. simpl. lia.
  - apply Forall_app. split; [exact Hall1 |].
    apply Forall_singleton. simpl. lia.
Qed.



(** C2.  From a ledger whose quantities are all non-negative, every ledger
    reached by a sequence of accepted transfers has only non-negative
    quantities. *)
Theorem transfers_keep_ledger_nonneg (st st' : Store) :
  ledger_nonneg (stock st) →
  transfers_reach st st' →
  ledger_nonneg (stock st').
Proof.
  intros Hstart Hreach. induction Hreach as [|st' st'' clk req res _ IH Hrun].
  - exact Hstart.
  - apply performStockTransfer_inv in Hrun. destruct res as [record stock2].
    destruct Hrun as (pid & fromId & toId & qty & i & src &
                      _ & _ & Hpos & _ & Hle & -> & _ & ->).
    simpl. apply moved_stock_nonneg; assumption.
Qed.

Lemma transfers_keep_ledger_nonneg_witness :
  ledger_nonneg
    [StockLine.mk 11 1 1 0; StockLine.mk 12 1 2 10;
     StockLine.mk 1700000000000 1 3 30].
Proof.
  refine (transfers_keep_ledger_nonneg Sample.store
            (mkStore _ _ _ _ _) _ _).
  - unfold ledger_nonneg. simpl. repeat constructor; simpl; lia.
  - eapply reach_transfer with
      (clk := Sample.clock)
      (req := mkRequest (Finite 1) (Finite 1) (Finite 3) (Finite 10)).
    + eapply reach_transfer with
        (clk := Sample.clock)
        (req := mkRequest (Finite 1) (Finite 1) (Finite 3) (Finite 20)).
      * apply reach_start.
      * vm_compute. reflexivity.
    + vm_compute. reflexivity.
Defined.

(** Atomicity: a call that throws has written nothing. *)
Lemma performStockTransfer_error_unchanged (clk : TransferClock)
    (req : TransferRequest) (st st' : Store) (e : Error) :
  performStockTransfer clk req st = (st', inl e) → st' = st.
Proof. intros H. exact (performStockTransfer_inv _ _ _ _ _ H). Qed.

(** C3.  A request with a quantity that is not positive, or with equal
    source and destination warehouses, or with a quantity above the quantity
    available at the source, fails with an error, and the persisted store
    (the ledger and the transfer log with it) is exactly as before. *)
Theorem rejected_transfer_leaves_store_unchanged (clk : TransferClock)
    (req : TransferRequest) (st : Store) :
  must_reject req st →
  ∃ e, performStockTransfer clk req st = (st, inl e).
Proof.
  intros Hrej.
  destruct (performStockTransfer clk req st) as [st' [e | [record stock2]]] eqn:Hrun.
  - apply performStockTransfer_error_unchanged in Hrun as ->. eauto.
  - exfalso. apply performStockTransfer_inv in Hrun.
    destruct Hrun as (pid & fromId & toId & qty & i & src &
                      -> & Hne & Hpos & Hsrc & Hle & _).
    destruct Hrej as [Hq | [Heq | (pid' & fromId' & Hp & Hf & Hlt)]]; simpl in *.
    + apply Z.leb_le in Hq. lia.
    + congruence.
    + injection Hp as <-. injection Hf as <-.
      unfold quantityOf in Hlt. rewrite Hsrc in Hlt.
      apply Z.ltb_lt in Hlt. lia.
Qed.

Lemma rejected_transfer_leaves_store_unchanged_witness :
  ∃ e, performStockTransfer Sample.clock
         (mkRequest (Finite 1) (Finite 1) (Finite 2) (Finite 50)) Sample.store
       = (Sample.store, inl e).
Proof.
  apply rejected_transfer_leaves_store_unchanged.
  right. right. exists 1, 1. repeat split.
Defined.

Lemma list_find_is_Some {A} (P : A → Prop) `{∀ x, Decision (P x)} (l : list A) :
  (∃ x, x ∈ l ∧ P x) → is_Some (list_find P l).
Proof. intros (x & Hx & HP). eapply list_find_elem_of; eauto. Qed.

Lemma list_find_absent {A} (P : A → Prop) `{∀ x, Decision (P x)} (l : list A) :
  (∀ x, x ∈ l → ¬ P x) → list_find P l = None.
Proof. intros HP. apply list_find_None, Forall_forall. exact HP. Qed.

Ltac unfold_transfer :=
  unfold performStockTransfer; run_M.

(** C4 (as the code has it).  The checks run in this order, each with its
    own error: product id finite; both warehouse ids finite; warehouses
    different; quantity finite and positive; product in the catalog; source
    warehouse in the catalog; destination warehouse in the catalog; quantity
    available at the source, an absent source line counting as 0; source line
    present.  So a request that passes the first five checks of the design
    document and has no source line fails with the insufficient-stock error,
    the store unchanged, and the missing-source-record error is never
    returned. *)
Theorem transfer_validation_order (clk : TransferClock) (st : Store) :
  (∀ req, isFinite (req_productId req) = false →
     performStockTransfer clk req st = (st, inl InvalidProductId)) ∧
  (∀ req, isFinite (req_productId req) = true →
     isFinite (req_fromWarehouseId req) = false ∨
     isFinite (req_toWarehouseId req) = false →
     performStockTransfer clk req st = (st, inl InvalidWarehouseId)) ∧
  (∀ pid wid qty,
     performStockTransfer clk (mkRequest (Finite pid) (Finite wid) (Finite wid) qty) st
     = (st, inl SameWarehouse)) ∧
  (∀ pid fromId toId qty, fromId ≠ toId →
     isFinite qty = false ∨ num_leb qty (Finite 0) = true →
     performStockTransfer clk
       (mkRequest (Finite pid) (Finite fromId) (Finite toId) qty) st
     = (st, inl InvalidQuantity)) ∧
  (∀ pid fromId toId qty, fromId ≠ toId → 0 < qty →
     (∀ p, p ∈ products st → Product.id p ≠ pid) →
     performStockTransfer clk
       (mkRequest (Finite pid) (Finite fromId) (Finite toId) (Finite qty)) st
     = (st, inl ProductNotFound)) ∧
  (∀ pid fromId toId qty, fromId ≠ toId → 0 < qty →
     (∃ p, p ∈ products st ∧ Product.id p = pid) →
     (∀ w, w ∈ warehouses st → Warehouse.id w ≠ fromId) →
     performStockTransfer clk
       (mkRequest (Finite pid) (Finite fromId) (Finite toId) (Finite qty)) st
     = (st, inl SourceWarehouseNotFound)) ∧
  (∀ pid fromId toId qty, fromId ≠ toId → 0 < qty →
     (∃ p, p ∈ products st ∧ Product.id p = pid) →
     (∃ w, w ∈ warehouses st ∧ Warehouse.id w = fromId) →
     (∀ w, w ∈ warehouses st → Warehouse.id w ≠ toId) →
     performStockTransfer clk
       (mkRequest (Finite pid) (Finite fromId) (Finite toId) (Finite qty)) st
     = (st, inl DestinationWarehouseNotFound)) ∧
  (∀ req pid fromId toId qty,
     passes_checks_1_to_5 req st pid fromId toId qty →
     quantityOf pid fromId (stock st) < qty →
     performStockTransfer clk req st = (st, inl InsufficientStock)) ∧
  (∀ req pid fromId toId qty,
     passes_checks_1_to_5 req st pid fromId toId qty →
     find_line pid fromId (stock st) = None →
     performStockTransfer clk req st = (st, inl InsufficientStock) ∧
     kind InsufficientStock = ConflictError) ∧
  (∀ req, snd (performStockTransfer clk req st) ≠ inl SourceStockRecordNotFound).
Proof.
  assert (∀ req pid fromId toId qty,
            passes_checks_1_to_5 req st pid fromId toId qty →
            quantityOf pid fromId (stock st) < qty →
            performStockTransfer clk req st = (st, inl InsufficientStock)) as Hlow.
  { intros req pid fromId toId qty (-> & Hne & Hpos & Hp & Hf & Ht) Hq.
    apply (list_find_is_Some (fun p => Product.id p = pid)) in Hp as [? Hp].
    apply (list_find_is_Some (fun w => Warehouse.id w = fromId)) in Hf as [? Hf].
    apply (list_find_is_Some (fun w => Warehouse.id w = toId)) in Ht as [? Ht].
    unfold quantityOf in Hq. unfold_transfer.
    rewrite bool_decide_eq_false_2 by done.
    destruct (Z.leb_spec qty 0); [lia |].
    rewrite Hp, Hf, Ht. simpl.
    destruct (find_line pid fromId (stock st)) as [[i src]|];
      (destruct (_ <? qty) eqn:E; [reflexivity | apply Z.ltb_ge in E; lia]). }
  repeat apply conj.
  - intros [[] f t q] Hfin; try discriminate; reflexivity.
  - intros [[] f t q] Hfin Hw; try discriminate.
    unfold_transfer.
    destruct f, t; destruct Hw; try discriminate; reflexivity.
  - intros pid wid qty. unfold_transfer.
    rewrite bool_decide_eq_true_2 by done. reflexivity.
  - intros pid fromId toId qty Hne Hq. unfold_transfer.
    rewrite bool_decide_eq_false_2 by done.
    destruct qty as [q| | |]; destruct Hq as [Hq | Hq]; try discriminate;
      try reflexivity.
    simpl in Hq. rewrite Hq. reflexivity.
  - intros pid fromId toId qty Hne Hpos Hnone. unfold_transfer.
    rewrite bool_decide_eq_false_2 by done.
    destruct (Z.leb_spec qty 0); [lia |].
    rewrite (list_find_absent (fun p => Product.id p = pid)) by done.
    reflexivity.
  - intros pid fromId toId qty Hne Hpos Hp Hnone. unfold_transfer.
    rewrite bool_decide_eq_false_2 by done.
    destruct (Z.leb_spec qty 0); [lia |].
    apply (list_find_is_Some (fun p => Product.id p = pid)) in Hp as [? ->].
    rewrite (list_find_absent (fun w => Warehouse.id w = fromId)) by done.
    reflexivity.
  - intros pid fromId toId qty Hne Hpos Hp Hf Hnone. unfold_transfer.
    rewrite bool_decide_eq_false_2 by done.
    destruct (Z.leb_spec qty 0); [lia |].
    apply (list_find_is_Some (fun p => Product.id p = pid)) in Hp as [? ->].
    apply (list_find_is_Some (fun w => Warehouse.id w = fromId)) in Hf as [? ->].
    rewrite (list_find_absent (fun w => Warehouse.id w = toId)) by done.
    reflexivity.
  - exact Hlow.
  - intros req pid fromId toId qty Hpass Hnone. split; [| reflexivity].
    apply (Hlow req pid fromId toId qty Hpass).
    unfold quantityOf. rewrite Hnone. destruct Hpass as (_ & _ & Hpos & _). lia.
  - intros req Hbad.
    destruct (performStockTransfer clk req st) as [st' r] eqn:Hrun.
    simpl in Hbad. subst r. revert Hrun. unfold_transfer.
    destruct req as [p f t q]. simpl.
    repeat (case_match; simplify_eq; try done).
    all: intros; simplify_eq.
    all: repeat match goal with
         | H : (_ <? _) = false |- _ => apply Z.ltb_ge in H
         | H : (_ <=? _) = false |- _ => apply Z.leb_gt in H
         end; lia.
Qed.

Lemma sample_passes_checks_1_to_5 :
  passes_checks_1_to_5
    (mkRequest (Finite 1) (Finite 3) (Finite 2) (Finite 20)) Sample.store 1 3 2 20.
Proof.
  unfold passes_checks_1_to_5. split; [reflexivity |].
  split; [discriminate |]. split; [reflexivity |].
  split; [| split].
  - exists Sample.P. split; [| reflexivity]. apply list_elem_of_here.
  - exists Sample.W3. split; [| reflexivity].
    do 2 apply list_elem_of_further. apply list_elem_of_here.
  - exists Sample.W2. split; [| reflexivity].
    apply list_elem_of_further, list_elem_of_here.
Defined.

Lemma transfer_validation_order_witness :
  performStockTransfer Sample.clock
    (mkRequest (Finite 1) (Finite 3) (Finite 2) (Finite 20)) Sample.store
  = (Sample.store, inl InsufficientStock) ∧
  kind InsufficientStock = ConflictError.
Proof.
  pose proof (transfer_validation_order Sample.clock Sample.store)
    as (_ & _ & _ & _ & _ & _ & _ & _ & H & _).
  apply (H _ 1 3 2 20).
  - exact sample_passes_checks_1_to_5.
  - reflexivity.
Defined.

(** C4 as stated fails: warehouse 3 is in the catalog and holds no line of
    product 1; a transfer of 20 out of it passes the first five checks and is
    refused with the insufficient-stock error, a conflict, not with the
    missing-source-record error. *)
Lemma missing_source_line_is_reported_as_conflict :
  let req := mkRequest (Finite 1) (Finite 3) (Finite 2) (Finite 20) in
  passes_checks_1_to_5 req Sample.store 1 3 2 20 ∧
  find_line 1 3 (stock Sample.store) = None ∧
  snd (performStockTransfer Sample.clock req Sample.store) = inl InsufficientStock ∧
  kind InsufficientStock = ConflictError ∧
  snd (performStockTransfer Sample.clock req Sample.store)
    ≠ inl SourceStockRecordNotFound.
Proof.
  simpl. split; [exact sample_passes_checks_1_to_5 |].
  split; [reflexivity |]. split; [reflexivity |]. split; [reflexivity |].
  vm_compute. discriminate.
Qed.

(* ------------------------------------------------------------------ *)
(** ** The reconciler: from the heap to the array *)

Lemma last_index_Some (pid : Z) (l : list Alert.t) (j : nat) :
  last_index pid l = Some j →
  ∃ a, l !! j = Some a ∧ Alert.productId a = pid.
Proof.
  revert j. induction l as [|x l IH]; intros j; simpl; [discriminate |].
  destruct (last_index pid l) as [k|].
  - intros [= <-]. apply IH. reflexivity.
  - destruct (decide (Alert.productId x = pid)); [| discriminate].
    intros [= <-]. eauto.
Qed.

Lemma last_index_lt (pid : Z) (l : list Alert.t) (j : nat) :
  last_index pid l = Some j → (j < length l)%nat.
Proof.
  intros H. apply last_index_Some in H as (a & Ha & _).
  eapply lookup_lt_Some; eauto.
Qed.

Lemma last_index_None (pid : Z) (l : list Alert.t) :
  last_index pid l = None ↔ pid ∉ Alert.productId <$> l.
Proof.
  induction l as [|x l IH]; simpl.
  - split; [intros _; apply not_elem_of_nil | done].
  - rewrite not_elem_of_cons.
    destruct (last_index pid l) as [k|].
    + split; [discriminate |]. intros [_ H]. apply IH in H. discriminate.
    + destruct (decide (Alert.productId x = pid)) as [E|E].
      * split; [discriminate | intros [H _]; congruence].
      * split; [| done]. intros _. split; [congruence | by apply IH].
Qed.

(** [last_index] reads product ids only. *)
Lemma last_index_ext (pid : Z) (l l' : list Alert.t) :
  Alert.productId <$> l = Alert.productId <$> l' →
  last_index pid l = last_index pid l'.
Proof.
  revert l'. induction l as [|x l IH]; intros [|y l'] H; simpl in *;
    try discriminate; [reflexivity |].
  injection H as Hx Hl. rewrite (IH _ Hl), Hx. reflexivity.
Qed.

Lemma productId_alter (f : Alert.t → Alert.t) (j : nat) (l : list Alert.t) :
  (∀ a, Alert.productId (f a) = Alert.productId a) →
  Alert.productId <$> alter f j l = Alert.productId <$> l.
Proof.
  intros Hf. revert j. induction l as [|x l IH]; intros [|j]; simpl;
    try reflexivity.
  - rewrite Hf. reflexivity.
  - f_equal. apply IH.
Qed.

Lemma productId_refresh_alert total category recommendedQty note now a :
  Alert.productId (refresh_alert total category recommendedQty note now a)
  = Alert.productId a.
Proof. unfold refresh_alert. case_bool_decide; reflexivity. Qed.

Lemma productId_resolve_alert now a :
  Alert.productId (resolve_alert now a) = Alert.productId a.
Proof. unfold resolve_alert. case_bool_decide; reflexivity. Qed.

Lemma map_of_alerts_lookup (base : nat) (l : list Alert.t) (m : gmap Z nat)
    (pid : Z) :
  map_of_alerts base l m !! pid =
  match last_index pid l with
  | Some j => Some (base + j)%nat
  | None => m !! pid
  end.
Proof.
  revert base m. induction l as [|x l IH]; intros base m; simpl; [reflexivity |].
  rewrite IH. destruct (last_index pid l) as [j|].
  - f_equal. lia.
  - destruct (decide (Alert.productId x = pid)) as [->|E].
    + rewrite lookup_insert_eq. f_equal. lia.
    + rewrite lookup_insert_ne by done. reflexivity.
Qed.

Section Dereference.
Context {A : Type}.
Implicit Types (h : list A) (u : list nat).

(** Reading an array of references through a heap. *)
Lemma deref_seq h (pre : list A) :
  deref (pre ++ h) (seq (length pre) (length h)) = h.
Proof.
  revert pre. induction h as [|x h IH]; intros pre; simpl; [reflexivity |].
  rewrite list_lookup_middle by reflexivity. f_equal.
  specialize (IH (pre ++ [x])).
  rewrite length_app, <- app_assoc in IH. simpl in IH.
  rewrite Nat.add_1_r in IH. exact IH.
Qed.

Lemma deref_length h u :
  Forall (fun r => (r < length h)%nat) u →
  length (deref h u) = length u.
Proof.
  induction 1 as [|r u Hr _ IH]; simpl; [reflexivity |].
  destruct (lookup_lt_is_Some_2 h r Hr) as [x ->]. simpl. by rewrite IH.
Qed.

Lemma deref_alter_other (f : A → A) h u r :
  r ∉ u →
  deref (alter f r h) u = deref h u.
Proof.
  induction u as [|r0 u IH]; intros Hr; simpl; [reflexivity |].
  apply not_elem_of_cons in Hr as [Hne Hr].
  rewrite list_lookup_alter_ne by done. rewrite IH by done. reflexivity.
Qed.

(** Mutating the object behind the [j]-th reference changes the [j]-th
    element of the array that is read, and nothing else. *)
Lemma deref_alter (f : A → A) h u j r :
  NoDup u →
  Forall (fun r => (r < length h)%nat) u →
  u !! j = Some r →
  deref (alter f r h) u =
  alter f j (deref h u).
Proof.
  intros Hnd Hall. revert j.
  induction Hall as [|r0 u Hr0 Hall IH]; intros j Hj; [discriminate |].
  apply NoDup_cons in Hnd as [Hnotin Hnd].
  destruct (lookup_lt_is_Some_2 h r0 Hr0) as [x Hx].
  destruct j as [|j]; simpl in *.
  - injection Hj as ->. rewrite list_lookup_alter_eq, Hx. simpl.
    rewrite deref_alter_other by done. reflexivity.
  - assert (r ≠ r0).
    { intros ->. apply Hnotin. eapply list_elem_of_lookup_2; eauto. }
    rewrite list_lookup_alter_ne by done. rewrite Hx. simpl.
    rewrite (IH Hnd j Hj). reflexivity.
Qed.

Lemma deref_alloc h u (x : A) :
  Forall (fun r => (r < length h)%nat) u →
  deref (h ++ [x]) (length h :: u) =
  x :: deref h u.
Proof.
  intros Hall. simpl. rewrite list_lookup_middle by reflexivity. f_equal.
  induction Hall as [|r u Hr _ IH]; simpl; [reflexivity |].
  rewrite lookup_app_l by done. rewrite IH. reflexivity.
Qed.

Lemma deref_lookup h u j r :
  Forall (fun r => (r < length h)%nat) u →
  u !! j = Some r →
  deref h u !! j = h !! r.
Proof.
  intros Hall. revert j. induction Hall as [|r0 u Hr0 _ IH]; intros j Hj;
    [discriminate |].
  destruct (lookup_lt_is_Some_2 h r0 Hr0) as [x Hx]. simpl. rewrite Hx.
  destruct j as [|j]; simpl in *.
  - injection Hj as <-. by rewrite Hx.
  - by apply IH.
Qed.
End Dereference.

Lemma initial_state_ok (existingAlerts : list Alert.t) :
  state_ok (initial_state existingAlerts) ∧
  snapshot (initial_state existingAlerts) = existingAlerts.
Proof.
  assert (snapshot (initial_state existingAlerts) = existingAlerts) as Hsnap.
  { exact (deref_seq existingAlerts []). }
  split; [| exact Hsnap].
  unfold state_ok. rewrite Hsnap. simpl. split; [apply NoDup_seq |]. split.
  - apply Forall_forall. intros r Hr. apply elem_of_seq in Hr. lia.
  - intros pid. rewrite map_of_alerts_lookup, lookup_empty.
    destruct (last_index pid existingAlerts) as [j|] eqn:Hj; simpl; [| reflexivity].
    apply last_index_lt in Hj. rewrite lookup_seq_lt by done. reflexivity.
Qed.

(** What [alertByProduct.get(pid)] returns in a well-formed state. *)
Lemma state_ok_get (st : GenState) (pid : Z) :
  state_ok st →
  match alertByProduct st !! pid with
  | Some r => ∃ j, last_index pid (snapshot st) = Some j ∧ updated st !! j = Some r
  | None => last_index pid (snapshot st) = None
  end.
Proof.
  intros (Hnd & Hall & Hmap). rewrite Hmap.
  destruct (last_index pid (snapshot st)) as [j|] eqn:Hj; simpl; [| reflexivity].
  pose proof (last_index_lt _ _ _ Hj) as Hlt.
  unfold snapshot in Hlt. rewrite deref_length in Hlt by done.
  destruct (lookup_lt_is_Some_2 _ _ Hlt) as [r Hr]. rewrite Hr. eauto.
Qed.

(** Mutating the alert the map holds for a product, by a function that
    keeps the product id, is the same mutation on the array. *)
Lemma state_ok_mutate (f : Alert.t → Alert.t) (st : GenState) (j r : nat) :
  (∀ a, Alert.productId (f a) = Alert.productId a) →
  state_ok st →
  updated st !! j = Some r →
  let st' := mkGen (alter f r (heap st)) (updated st) (alertByProduct st) in
  state_ok st' ∧ snapshot st' = alter f j (snapshot st).
Proof.
  intros Hf (Hnd & Hall & Hmap) Hj. simpl.
  assert (snapshot (mkGen (alter f r (heap st)) (updated st) (alertByProduct st))
          = alter f j (snapshot st)) as Hsnap.
  { unfold snapshot. simpl. by apply deref_alter. }
  split; [| exact Hsnap].
  unfold state_ok. rewrite Hsnap. simpl. split; [exact Hnd |]. split.
  - rewrite length_alter. exact Hall.
  - intros pid. rewrite Hmap.
    rewrite (last_index_ext pid (alter f j (snapshot st)) (snapshot st));
      [reflexivity | by apply productId_alter].
Qed.

(** Allocating the alert of a product that has none is putting it in front
    of the array. *)
Lemma state_ok_allocate (alert : Alert.t) (st : GenState) :
  state_ok st →
  last_index (Alert.productId alert) (snapshot st) = None →
  let r := length (heap st) in
  let st' := mkGen (heap st ++ [alert]) (r :: updated st)
                   (<[Alert.productId alert := r]> (alertByProduct st)) in
  state_ok st' ∧ snapshot st' = alert :: snapshot st.
Proof.
  intros (Hnd & Hall & Hmap) Hnone. simpl.
  assert (snapshot (mkGen (heap st ++ [alert]) (length (heap st) :: updated st)
                      (<[Alert.productId alert := length (heap st)]> (alertByProduct st)))
          = alert :: snapshot st) as Hsnap.
  { unfold snapshot. simpl heap. simpl updated. by apply deref_alloc. }
  split; [| exact Hsnap].
  unfold state_ok. rewrite Hsnap. simpl heap. simpl updated. simpl alertByProduct.
  split; [| split].
  - apply NoDup_cons. split; [| exact Hnd].
    intros Hin. rewrite Forall_forall in Hall.
    specialize (Hall _ Hin). simpl in Hall. lia.
  - apply Forall_cons. split; [rewrite length_app; simpl; lia |].
    eapply Forall_impl; [exact Hall |]. intros r Hr. rewrite length_app.
    simpl in *. lia.
  - intros pid. simpl last_index.
    destruct (decide (Alert.productId alert = pid)) as [<-|Hne].
    + rewrite Hnone, lookup_insert_eq. reflexivity.
    + rewrite lookup_insert_ne by done. rewrite Hmap.
      destruct (last_index pid (snapshot st)); reflexivity.
Qed.

(** One turn of the loop on the heap is one turn of the loop on the array. *)
Lemma reconcile_product_snapshot (now : string) (stock : list StockLine.t)
    (st : GenState) (p : Product.t) :
  state_ok st →
  state_ok (reconcile_product now stock st p) ∧
  snapshot (reconcile_product now stock st p) =
  reconcile_array now stock (snapshot st) p.
Proof.
  intros Hok. pose proof (state_ok_get st (Product.id p) Hok) as Hget.
  unfold reconcile_product, reconcile_array.
  destruct (recommendReorder _ _) as [recommendedQty note].
  destruct (critical_or_low _);
    destruct (alertByProduct st !! Product.id p) as [r|].
  - destruct Hget as (j & -> & Hj).
    apply state_ok_mutate; auto using productId_refresh_alert.
  - rewrite Hget.
    apply (state_ok_allocate (new_alert now p _ _ recommendedQty note) st Hok).
    exact Hget.
  - destruct Hget as (j & -> & Hj).
    apply state_ok_mutate; auto using productId_resolve_alert.
  - rewrite Hget. destruct st. auto.
Qed.

Lemma reconcile_loop_snapshot (now : string) (stock : list StockLine.t)
    (products : list Product.t) (st : GenState) :
  state_ok st →
  snapshot (foldl (reconcile_product now stock) st products) =
  foldl (reconcile_array now stock) (snapshot st) products.
Proof.
  revert st. induction products as [|p products IH]; intros st Hok; simpl;
    [reflexivity |].
  destruct (reconcile_product_snapshot now stock st p Hok) as [Hok' <-].
  by apply IH.
Qed.

(** [generateAlerts] never throws; it rewrites the alerts file with the
    result of the loop and touches no other file. *)
Lemma generateAlerts_run (now : string) (st : Store) :
  let result :=
    foldl (reconcile_array now (stock st)) (alerts st) (products st) in
  generateAlerts now st =
  (mkStore (products st) (warehouses st) (stock st) (transfers st) result,
   inr result).
Proof.
  unfold generateAlerts. run_M.
  destruct (initial_state_ok (alerts st)) as [Hok Hsnap].
  rewrite reconcile_loop_snapshot by done. rewrite Hsnap. reflexivity.
Qed.

Lemma alerts_after_generate_eq (now : string) (st : Store) :
  alerts_after_generate now st =
  foldl (reconcile_array now (stock st)) (alerts st) (products st).
Proof. unfold alerts_after_generate. rewrite generateAlerts_run. reflexivity. Qed.

(* ------------------------------------------------------------------ *)
(** ** One alert per product *)

Lemma productId_insert (i : nat) (a a' : Alert.t) (l : list Alert.t) :
  l !! i = Some a →
  Alert.productId a' = Alert.productId a →
  Alert.productId <$> <[i := a']> l = Alert.productId <$> l.
Proof.
  intros Hi Hp. rewrite list_fmap_insert, Hp.
  apply list_insert_id. rewrite list_lookup_fmap, Hi. reflexivity.
Qed.

Lemma reconcile_array_NoDup (now : string) (stock : list StockLine.t)
    (l : list Alert.t) (p : Product.t) :
  NoDup (Alert.productId <$> l) →
  NoDup (Alert.productId <$> reconcile_array now stock l p).
Proof.
  intros Hnd. unfold reconcile_array.
  destruct (recommendReorder _ _) as [recommendedQty note].
  destruct (critical_or_low _);
    destruct (last_index (Product.id p) l) as [j|] eqn:Hj.
  - rewrite productId_alter by apply productId_refresh_alert. exact Hnd.
  - rewrite fmap_cons. apply NoDup_cons. split; [| exact Hnd].
    apply last_index_None. exact Hj.
  - rewrite productId_alter by apply productId_resolve_alert. exact Hnd.
  - exact Hnd.
Qed.

(** [generateAlerts] allocates an alert for a product only when the array
    holds no alert of that product, of whatever workflow status. *)
Lemma reconcile_array_grows (now : string) (stock : list StockLine.t)
    (l : list Alert.t) (p : Product.t) :
  length (reconcile_array now stock l p) ≠ length l →
  Product.id p ∉ Alert.productId <$> l.
Proof.
  unfold reconcile_array.
  destruct (recommendReorder _ _) as [recommendedQty note].
  destruct (critical_or_low _);
    destruct (last_index (Product.id p) l) as [j|] eqn:Hj;
    rewrite ?length_alter; try done.
  intros _. by apply last_index_None.
Qed.

Lemma generateAlerts_NoDup (now : string) (st : Store) :
  NoDup (Alert.productId <$> alerts st) →
  NoDup (Alert.productId <$> alerts_after_generate now st).
Proof.
  rewrite alerts_after_generate_eq.
  generalize (alerts st). induction (products st) as [|p ps IH]; intros l Hnd;
    simpl; [exact Hnd |].
  apply IH. by apply reconcile_array_NoDup.
Qed.

(** [updateAlertStatus] neither adds nor removes an alert, and keeps the
    product of each. *)
Lemma updateAlertStatus_productIds (now id workflowStatus : string)
    (comment : option string) (st : Store) :
  Alert.productId <$> alerts_after_update now id workflowStatus comment st
  = Alert.productId <$> alerts st.
Proof.
  unfold alerts_after_update, updateAlertStatus. run_M.
  destruct (list_find _ (alerts st)) as [[i a]|] eqn:Hfind; [| reflexivity].
  destruct (negb _); [reflexivity |]. simpl.
  apply list_find_Some in Hfind as (Hi & _).
  by apply (productId_insert i a).
Qed.

(** C10.  From the empty collection, every collection reached by calls of
    [generateAlerts] and [updateAlertStatus] holds at most one alert per
    product id. *)
Theorem reachable_alerts_one_per_product (l : list Alert.t) :
  alerts_reachable l → NoDup (Alert.productId <$> l).
Proof.
  induction 1 as [| st now _ IH | st now id ws comment _ IH].
  - apply NoDup_nil_2.
  - by apply generateAlerts_NoDup.
  - rewrite updateAlertStatus_productIds. exact IH.
Qed.

Lemma reachable_alerts_one_per_product_witness :
  NoDup (Alert.productId <$>
           alerts_after_update Sample.t2 "A-2025-01-02T10:00:00.000Z-2"
             "ORDERED" (Some "ordered 20")
             (fst (generateAlerts Sample.t1 Sample.store2))).
Proof.
  apply reachable_alerts_one_per_product.
  apply reachable_update.
  apply (reachable_generate Sample.store2 Sample.t1).
  apply reachable_empty.
Defined.

(* ------------------------------------------------------------------ *)
(** ** The workflow manager *)



(* ------------------------------------------------------------------ *)
(** ** Resolved alerts under reconciliation *)

Lemma refresh_alert_resolved total category recommendedQty note now a :
  Alert.workflowStatus a = "RESOLVED" →
  refresh_alert total category recommendedQty note now a = a.
Proof.
  intros H. unfold refresh_alert. rewrite bool_decide_eq_false_2; [done |].
  intros Hne. by apply Hne.
Qed.

Lemma resolve_alert_resolved now a :
  Alert.workflowStatus a = "RESOLVED" → resolve_alert now a = a.
Proof.
  intros H. unfold resolve_alert. rewrite bool_decide_eq_false_2; [done |].
  intros Hne. by apply Hne.
Qed.

Lemma resolve_alert_status now a :
  Alert.workflowStatus (resolve_alert now a) = "RESOLVED".
Proof.
  unfold resolve_alert. case_bool_decide as H; [reflexivity |].
  destruct (decide (Alert.workflowStatus a = "RESOLVED")); [done |].
  by destruct H.
Qed.

Lemma Forall2_same {A} (R : A → A → Prop) (l : list A) :
  (∀ a, R a a) → Forall2 R l l.
Proof. intros HR. induction l; constructor; auto. Qed.

(** One turn of the loop puts at most one alert in front of the array and
    leaves every resolved alert of the array as it is. *)
Lemma reconcile_array_keeps_resolved (now : string) (stock : list StockLine.t)
    (l : list Alert.t) (p : Product.t) :
  ∃ news olds,
    reconcile_array now stock l p = news ++ olds ∧
    Forall2 (fun a b => Alert.workflowStatus a = "RESOLVED" → b = a) l olds.
Proof.
  unfold reconcile_array.
  destruct (recommendReorder _ _) as [recommendedQty note].
  destruct (critical_or_low _);
    destruct (last_index (Product.id p) l) as [j|].
  - eexists [], _. split; [reflexivity |].
    apply Forall2_alter_r; [by apply Forall2_same |].
    intros a b _ _ Hab Hres. rewrite (Hab Hres).
    by apply refresh_alert_resolved.
  - eexists [_], l. split; [reflexivity | by apply Forall2_same].
  - exists [], (alter (resolve_alert now) j l). split; [reflexivity |].
    apply Forall2_alter_r; [by apply Forall2_same |].
    intros a b _ _ Hab Hres. rewrite (Hab Hres).
    by apply resolve_alert_resolved.
  - exists [], l. split; [reflexivity | by apply Forall2_same].
Qed.

(** [generateAlerts] never mutates an alert whose workflow status is
    RESOLVED: the alerts it found are the tail of the array it saves, the
    resolved ones unchanged. *)
Lemma generateAlerts_keeps_resolved (now : string) (st : Store) :
  ∃ news olds,
    alerts_after_generate now st = news ++ olds ∧
    Forall2 (fun a b => Alert.workflowStatus a = "RESOLVED" → b = a)
            (alerts st) olds.
Proof.
  rewrite alerts_after_generate_eq.
  generalize (alerts st). induction (products st) as [|p ps IH]; intros l; simpl.
  - exists [], l. split; [reflexivity | by apply Forall2_same].
  - destruct (reconcile_array_keeps_resolved now (stock st) l p)
      as (news1 & olds1 & -> & H1).
    destruct (IH (news1 ++ olds1)) as (news2 & olds2 & -> & H2).
    apply Forall2_app_inv_l in H2 as (k1 & k2 & _ & H2 & ->).
    exists (news2 ++ k1), k2. split; [by rewrite app_assoc |].
    clear IH. revert k2 H2. induction H1 as [|a b l olds1 Hab _ IHl];
      intros k2 H2; inversion H2 as [|? c ? k2' Hbc Hrest]; subst;
      constructor; auto.
    intros Hres. rewrite <- (Hab Hres). apply Hbc. by rewrite (Hab Hres).
Qed.

(** A resolved alert of a product stops the pass from doing anything for
    that product, whatever its category: no alert is created. *)
Lemma resolved_alert_blocks_turn (now : string) (stock : list StockLine.t)
    (l : list Alert.t) (p : Product.t) (j : nat) (a : Alert.t) :
  last_index (Product.id p) l = Some j →
  l !! j = Some a →
  Alert.workflowStatus a = "RESOLVED" →
  reconcile_array now stock l p = l.
Proof.
  intros Hj Ha Hres. unfold reconcile_array.
  destruct (recommendReorder _ _) as [recommendedQty note]. rewrite Hj.
  destruct (critical_or_low _); apply list_eq; intros i;
    destruct (decide (i = j)) as [->|Hne];
    rewrite ?list_lookup_alter_eq, ?list_lookup_alter_ne, ?Ha by done;
    simpl; rewrite ?refresh_alert_resolved, ?resolve_alert_resolved by done;
    reflexivity.
Qed.

(** C5 (the code at the failing input).  Product [P] holds 40 units against
    a reorder point of 100, so its category is critical, and its only alert
    is resolved.  The pass leaves the resolved alert as it is and creates no
    alert: the collection it saves is the one it found. *)
Theorem resolved_alert_suppresses_new_alert :
  categorizeStock
    (totalStockForProduct (Product.id Sample.P) (stock Sample.store_resolved))
    (Product.reorderPoint Sample.P) = critical ∧
  alerts Sample.store_resolved = [Sample.resolved_alert] ∧
  Alert.workflowStatus Sample.resolved_alert = "RESOLVED" ∧
  generateAlerts Sample.t2 Sample.store_resolved =
    (Sample.store_resolved, inr [Sample.resolved_alert]) ∧
  ¬ (∃ a, a ∈ alerts_after_generate Sample.t2 Sample.store_resolved ∧
          Alert.workflowStatus a = "NEW").
Proof.
  split; [reflexivity |]. split; [reflexivity |]. split; [reflexivity |].
  split; [vm_compute; reflexivity |].
  intros (a & Ha & Hnew).
  assert (alerts_after_generate Sample.t2 Sample.store_resolved
          = [Sample.resolved_alert]) as E by (vm_compute; reflexivity).
  rewrite E in Ha. apply list_elem_of_singleton in Ha. subst a. discriminate.
Qed.

(* ------------------------------------------------------------------ *)
(** ** Reconciling twice *)

Section Twice.
Variable stock : list StockLine.t.

Lemma settled_alter (f : Alert.t → Alert.t) (now : string)
    (p : Product.t) (pid : Z) (j : nat) (l : list Alert.t) :
  (∀ a, Alert.productId (f a) = Alert.productId a) →
  last_index pid l = Some j →
  pid ≠ Product.id p →
  settled stock p l →
  settled stock p (alter f j l).
Proof.
  intros Hf Hj Hne. unfold settled.
  rewrite (last_index_ext _ (alter f j l) l) by by apply productId_alter.
  destruct (last_index (Product.id p) l) as [i|] eqn:Hi; [| done].
  intros (a & Ha & Hsettled). exists a. split; [| exact Hsettled].
  apply last_index_Some in Hj as (x & Hx & Hpx).
  apply last_index_Some in Hi as (y & Hy & Hpy).
  rewrite list_lookup_alter_ne; [exact Ha |].
  intros ->. congruence.
Qed.

(** After the turn of a product the array is settled for it. *)
Lemma settled_after_own_turn (now : string) (p : Product.t)
    (l : list Alert.t) :
  settled stock p (reconcile_array now stock l p).
Proof.
  unfold settled, reconcile_array.
  destruct (recommendReorder _ _) as [recommendedQty note]. simpl fst. simpl snd.
  destruct (critical_or_low _) eqn:Hcat;
    destruct (last_index (Product.id p) l) as [j|] eqn:Hj.
  - rewrite (last_index_ext _ (alter _ j l) l)
      by apply productId_alter, productId_refresh_alert.
    rewrite Hj. apply last_index_Some in Hj as (a & Ha & _).
    eexists. split; [rewrite list_lookup_alter_eq, Ha; reflexivity |].
    unfold refresh_alert. case_bool_decide as Hres.
    + right. simpl. repeat split; auto.
    + left. destruct (decide (Alert.workflowStatus a = "RESOLVED")); [done |].
      by destruct Hres.
  - simpl last_index. rewrite Hj.
    rewrite decide_True by reflexivity.
    eexists. split; [reflexivity |]. right.
    simpl. repeat split; auto; discriminate.
  - rewrite (last_index_ext _ (alter _ j l) l)
      by apply productId_alter, productId_resolve_alert.
    rewrite Hj. apply last_index_Some in Hj as (a & Ha & _).
    eexists. split; [rewrite list_lookup_alter_eq, Ha; reflexivity |].
    left. apply resolve_alert_status.
  - rewrite Hj. reflexivity.
Qed.

(** The turn of another product keeps it settled. *)
Lemma settled_other_turn (now : string) (p q : Product.t)
    (l : list Alert.t) :
  Product.id q ≠ Product.id p →
  settled stock p l →
  settled stock p (reconcile_array now stock l q).
Proof.
  intros Hne Hp. unfold reconcile_array.
  destruct (recommendReorder _ _) as [recommendedQty note].
  destruct (critical_or_low _);
    destruct (last_index (Product.id q) l) as [j|] eqn:Hj.
  - eapply settled_alter; eauto using productId_refresh_alert.
  - unfold settled in *. simpl last_index.
    destruct (last_index (Product.id p) l) as [i|].
    + exact Hp.
    + rewrite decide_False by exact Hne. exact Hp.
  - eapply settled_alter; eauto using productId_resolve_alert.
  - exact Hp.
Qed.

Lemma settled_loop (now : string) (p : Product.t) (qs : list Product.t)
    (l : list Alert.t) :
  Product.id p ∉ Product.id <$> qs →
  settled stock p l →
  settled stock p (foldl (reconcile_array now stock) l qs).
Proof.
  revert l. induction qs as [|q qs IH]; intros l Hnotin Hp; simpl; [exact Hp |].
  rewrite fmap_cons in Hnotin. apply not_elem_of_cons in Hnotin as [Hne Hnotin].
  apply IH; [exact Hnotin |]. apply settled_other_turn; [congruence | exact Hp].
Qed.

(** With distinct product ids, the array a pass leaves is settled for
    every product of the catalog. *)
Lemma settled_after_pass (now : string) (ps : list Product.t)
    (l : list Alert.t) :
  NoDup (Product.id <$> ps) →
  Forall (fun p => settled stock p (foldl (reconcile_array now stock) l ps)) ps.
Proof.
  revert l. induction ps as [|p ps IH]; intros l Hnd; simpl; [constructor |].
  rewrite fmap_cons in Hnd. apply NoDup_cons in Hnd as [Hnotin Hnd].
  constructor; [| by apply IH].
  apply settled_loop; [exact Hnotin | apply settled_after_own_turn].
Qed.

Lemma restamped_productIds (now : string) (l k : list Alert.t) :
  Forall2 (restamped now) l k →
  Alert.productId <$> k = Alert.productId <$> l.
Proof.
  induction 1 as [|a b l k Hab _ IH]; [reflexivity |].
  rewrite !fmap_cons, IH. f_equal.
  destruct Hab as [-> | (_ & _ & ->)]; reflexivity.
Qed.

(** A turn of the second pass on an array settled for its product only
    restamps. *)
Lemma second_turn_restamps (now : string) (p : Product.t)
    (l k : list Alert.t) :
  settled stock p l →
  Forall2 (restamped now) l k →
  Forall2 (restamped now) l (reconcile_array now stock k p).
Proof.
  intros Hp Hlk. unfold settled in Hp. unfold reconcile_array.
  rewrite (last_index_ext _ k l) by by eapply restamped_productIds.
  destruct (recommendReorder _ _) as [recommendedQty note].
  simpl fst in Hp. simpl snd in Hp.
  destruct (last_index (Product.id p) l) as [j|].
  - destruct Hp as (a & Ha & Hsettled).
    destruct (critical_or_low _) eqn:Hcat.
    + apply Forall2_alter_r; [exact Hlk |].
      intros x b Hx _ Hxb. rewrite Ha in Hx. injection Hx as <-.
      destruct Hsettled as [Hres | (_ & Hopen & Ht & Hc & Hq & Hn)].
      * destruct Hxb as [-> | (Hopen & _)]; [| done].
        rewrite refresh_alert_resolved by done. by left.
      * right. split; [exact Hopen |]. split; [by rewrite Hc |].
        unfold refresh_alert.
        destruct Hxb as [-> | (_ & _ & ->)];
          (rewrite bool_decide_eq_true_2 by exact Hopen);
          destruct a; simpl in *; subst; reflexivity.
    + destruct Hsettled as [Hres | (? & _)]; [| done].
      apply Forall2_alter_r; [exact Hlk |].
      intros x b Hx _ Hxb. rewrite Ha in Hx. injection Hx as <-.
      destruct Hxb as [-> | (Hopen & _)]; [| done].
      rewrite resolve_alert_resolved by done. by left.
  - rewrite Hp. exact Hlk.
Qed.

Lemma second_pass_restamps (now : string) (ps : list Product.t)
    (l k : list Alert.t) :
  Forall (fun p => settled stock p l) ps →
  Forall2 (restamped now) l k →
  Forall2 (restamped now) l (foldl (reconcile_array now stock) k ps).
Proof.
  intros Hall. revert k. induction Hall as [|p ps Hp _ IH]; intros k Hlk;
    simpl; [exact Hlk |].
  apply IH. by apply second_turn_restamps.
Qed.
End Twice.




(** Distinct product ids are needed: with two catalog entries of one id, the
    first overstocked and the second critical, the first pass creates an
    alert and the second pass resolves it. *)
Lemma duplicate_product_ids_second_pass_resolves :
  let st1 := fst (generateAlerts Sample.t1 Sample.store_duplicate_ids) in
  let st2 := fst (generateAlerts Sample.t2 st1) in
  Alert.workflowStatus <$> alerts st1 = ["NEW"] ∧
  Alert.workflowStatus <$> alerts st2 = ["RESOLVED"].
Proof. vm_compute. split; reflexivity. Qed.

(* ------------------------------------------------------------------ *)
(** ** The scenarios of the design document *)

(** Product [P] holds 30 at W1 and 10 at W2: moving 20 from W1 to W2 returns
    a record of quantity 20 and leaves 10 and 30, total 40. *)
Example scenario_transfer_20 :
  ∃ record stock2,
    snd (performStockTransfer Sample.clock
           (mkRequest (Finite 1) (Finite 1) (Finite 2) (Finite 20)) Sample.store)
    = inr (record, stock2) ∧
    TransferRecord.quantity record = 20 ∧
    StockLine.quantity <$> stock2 = [10; 30] ∧
    totalStockForProduct 1 stock2 = 40.
Proof. eexists _, _. vm_compute. repeat split. Qed.

(** Moving 50 out of a line that holds 30 is refused as insufficient stock
    and both lines keep their quantity. *)
Example scenario_transfer_50 :
  performStockTransfer Sample.clock
    (mkRequest (Finite 1) (Finite 1) (Finite 2) (Finite 50)) Sample.store
  = (Sample.store, inl InsufficientStock).
Proof. reflexivity. Qed.


(* ================================================================== *)
(** * Further properties of the data layer and of the routes *)

(* ------------------------------------------------------------------ *)
(** ** Sums of quantities over a selection of lines *)

Section Selection.
Context (P : StockLine.t → Prop) `{∀ s, Decision (P s)}.

Lemma selected_total_cons (s : StockLine.t) (l : list StockLine.t) :
  selected_total P (s :: l) =
  (if decide (P s) then StockLine.quantity s else 0) + selected_total P l.
Proof.
  unfold selected_total. rewrite filter_cons.
  destruct (decide (P s)); simpl; [| lia].
  rewrite foldl_quantity_acc. lia.
Qed.

Lemma selected_total_app (l1 l2 : list StockLine.t) :
  selected_total P (l1 ++ l2) = selected_total P l1 + selected_total P l2.
Proof.
  induction l1 as [|s l1 IH]; [unfold selected_total; simpl; lia |].
  rewrite <- app_comm_cons, !selected_total_cons, IH. lia.
Qed.

Lemma selected_total_alter (f : StockLine.t → Z) (i : nat) (s : StockLine.t)
    (l : list StockLine.t) :
  (∀ q d, P (StockLine.set_quantity q d) ↔ P d) →
  l !! i = Some s →
  selected_total P (alter (fun d => StockLine.set_quantity (f d) d) i l) =
  selected_total P l + (if decide (P s) then f s - StockLine.quantity s else 0).
Proof.
  intros HP. revert i. induction l as [|x l IH]; intros [|i] Hi; simpl in Hi;
    try discriminate.
  - injection Hi as ->. unfold alter. simpl. rewrite !selected_total_cons. simpl.
    destruct (decide (P s)) as [Hs|Hs];
      destruct (decide (P (StockLine.set_quantity (f s) s))) as [Hs'|Hs'];
      try lia; exfalso; apply HP in Hs' || (apply Hs'; apply HP); tauto.
  - specialize (IH i Hi). unfold alter in *. simpl.
    rewrite !selected_total_cons, IH. lia.
Qed.

Lemma selected_total_nonneg (l : list StockLine.t) :
  ledger_nonneg l → 0 <= selected_total P l.
Proof.
  induction 1 as [|s l Hs _ IH]; [unfold selected_total; simpl; lia |].
  rewrite selected_total_cons. destruct (decide (P s)); lia.
Qed.
End Selection.

Lemma totalStockForProduct_selected (pid : Z) (l : list StockLine.t) :
  totalStockForProduct pid l = selected_total (fun s => StockLine.productId s = pid) l.
Proof. reflexivity. Qed.

Lemma warehouseStock_selected (wid : Z) (l : list StockLine.t) :
  warehouseStock wid l = selected_total (fun s => StockLine.warehouseId s = wid) l.
Proof. reflexivity. Qed.

(* ------------------------------------------------------------------ *)
(** ** Looking up a line *)

Lemma find_line_cons (pid wid : Z) (x : StockLine.t) (l : list StockLine.t) :
  find_line pid wid (x :: l) =
  if decide (line_key x = (pid, wid)) then Some (0%nat, x)
  else prod_map S id <$> find_line pid wid l.
Proof.
  unfold find_line, line_key. simpl.
  destruct (decide (StockLine.productId x = pid ∧ StockLine.warehouseId x = wid))
    as [[<- <-]|Hne].
  - rewrite decide_True by reflexivity. reflexivity.
  - rewrite decide_False; [reflexivity |]. intros [= ? ?]. tauto.
Qed.

Arguments find_line : simpl never.
Arguments quantityOf : simpl never.

Lemma quantityOf_nil (pid wid : Z) : quantityOf pid wid [] = 0.
Proof. reflexivity. Qed.

Lemma quantityOf_cons (pid wid : Z) (x : StockLine.t) (l : list StockLine.t) :
  quantityOf pid wid (x :: l) =
  if decide (line_key x = (pid, wid)) then StockLine.quantity x
  else quantityOf pid wid l.
Proof.
  unfold quantityOf. rewrite find_line_cons.
  destruct (decide (line_key x = (pid, wid))); [reflexivity |].
  destruct (find_line pid wid l) as [[j s]|]; reflexivity.
Qed.

Lemma find_line_None_quantity (pid wid : Z) (l : list StockLine.t) :
  find_line pid wid l = None → quantityOf pid wid l = 0.
Proof. unfold quantityOf. by intros ->. Qed.

Lemma find_line_None_key (pid wid : Z) (l : list StockLine.t) :
  find_line pid wid l = None ↔ (pid, wid) ∉ line_key <$> l.
Proof.
  induction l as [|x l IH]; [split; [intros _; apply not_elem_of_nil | done] |].
  rewrite find_line_cons, fmap_cons, not_elem_of_cons.
  destruct (decide (line_key x = (pid, wid))) as [E|E].
  - split; [discriminate | intros [H _]; congruence].
  - destruct (find_line pid wid l) as [[j s]|]; simpl.
    + split; [discriminate |]. intros [_ H]. apply IH in H. discriminate.
    + split; [| done]. intros _. split; [congruence | by apply IH].
Qed.

(** Rewriting the quantity of the line that [find] returns for its key
    changes what is read for that key and for no other. *)
Lemma quantityOf_alter (pid wid : Z) (g : StockLine.t → Z) (i : nat)
    (s : StockLine.t) (l : list StockLine.t) (p w : Z) :
  find_line pid wid l = Some (i, s) →
  quantityOf p w (alter (fun d => StockLine.set_quantity (g d) d) i l) =
  if decide ((pid, wid) = (p, w)) then g s else quantityOf p w l.
Proof.
  revert i. induction l as [|x l IH]; intros i; [discriminate |].
  rewrite find_line_cons.
  destruct (decide (line_key x = (pid, wid))) as [Hx|Hx].
  - intros [= <- <-]. unfold alter. simpl. rewrite !quantityOf_cons.
    change (line_key (StockLine.set_quantity (g x) x)) with (line_key x).
    rewrite Hx. destruct (decide ((pid, wid) = (p, w))); reflexivity.
  - destruct (find_line pid wid l) as [[j s']|] eqn:Hfind; [| discriminate].
    simpl. intros [= <- <-]. unfold alter. simpl.
    specialize (IH j eq_refl). unfold alter in IH.
    rewrite !quantityOf_cons, IH.
    destruct (decide (line_key x = (p, w))) as [Hx'|Hx']; [| reflexivity].
    rewrite decide_False by congruence. reflexivity.
Qed.

Lemma find_line_alter (pid wid : Z) (g : StockLine.t → Z) (i : nat)
    (l : list StockLine.t) :
  find_line pid wid (alter (fun d => StockLine.set_quantity (g d) d) i l) =
  (fun js => (js.1, if decide (js.1 = i) then StockLine.set_quantity (g js.2) js.2
                    else js.2)) <$> find_line pid wid l.
Proof.
  revert i. induction l as [|x l IH]; intros i; [reflexivity |].
  destruct i as [|i]; unfold alter; simpl; rewrite !find_line_cons.
  - change (line_key (StockLine.set_quantity (g x) x)) with (line_key x).
    destruct (decide (line_key x = (pid, wid))); [reflexivity |].
    destruct (find_line pid wid l) as [[j s]|]; reflexivity.
  - destruct (decide (line_key x = (pid, wid))); [reflexivity |].
    specialize (IH i). unfold alter in IH. rewrite IH.
    destruct (find_line pid wid l) as [[j s]|]; simpl; [| reflexivity].
    destruct (decide (j = i)) as [->|Hne].
    + rewrite decide_True by reflexivity. reflexivity.
    + rewrite decide_False by lia. reflexivity.
Qed.

Lemma quantityOf_app (p w : Z) (l l' : list StockLine.t) :
  quantityOf p w (l ++ l') =
  match find_line p w l with
  | Some _ => quantityOf p w l
  | None => quantityOf p w l'
  end.
Proof.
  induction l as [|x l IH]; [reflexivity |].
  rewrite <- app_comm_cons, !quantityOf_cons, find_line_cons, IH.
  destruct (decide (line_key x = (p, w))); [reflexivity |].
  destruct (find_line p w l) as [[j s]|]; reflexivity.
Qed.

Lemma line_key_alter (g : StockLine.t → Z) (i : nat) (l : list StockLine.t) :
  line_key <$> alter (fun d => StockLine.set_quantity (g d) d) i l
  = line_key <$> l.
Proof.
  revert i. induction l as [|x l IH]; intros [|i]; unfold alter; simpl;
    try reflexivity.
  f_equal. apply IH.
Qed.

(** The ledger of [moved_stock] with both updates in the same shape. *)
Lemma moved_stock_unfold (clk : TransferClock) (pid toId qty : Z) (i : nat)
    (src : StockLine.t) (stock : list StockLine.t) :
  moved_stock clk pid toId qty i src stock =
  let stock1 :=
    alter (fun d => StockLine.set_quantity (StockLine.quantity src - qty) d) i stock in
  match find_line pid toId stock with
  | Some (j, _) =>
      alter (fun d => StockLine.set_quantity (StockLine.quantity d + qty) d) j stock1
  | None => stock1 ++ [StockLine.mk (clock_dateNow clk) pid toId qty]
  end.
Proof. reflexivity. Qed.

Lemma moved_stock_quantityOf (clk : TransferClock) (pid fromId toId qty : Z)
    (i : nat) (src : StockLine.t) (stock : list StockLine.t) (p w : Z) :
  find_line pid fromId stock = Some (i, src) →
  fromId ≠ toId →
  quantityOf p w (moved_stock clk pid toId qty i src stock) =
  quantityOf p w stock
  + (if decide ((pid, toId) = (p, w)) then qty else 0)
  - (if decide ((pid, fromId) = (p, w)) then qty else 0).
Proof.
  intros Hsrc Hne. rewrite moved_stock_unfold. cbv zeta.
  pose proof (quantityOf_alter pid fromId
                (fun _ => StockLine.quantity src - qty) i src stock p w Hsrc) as E1.
  assert (quantityOf pid fromId stock = StockLine.quantity src) as Hq.
  { unfold quantityOf. by rewrite Hsrc. }
  destruct (find_line pid toId stock) as [[j d]|] eqn:Hdst.
  - assert (i ≠ j).
    { intros ->. apply find_line_Some in Hsrc as (Hi & _ & Hw).
      apply find_line_Some in Hdst as (Hj & _ & Hw'). congruence. }
    assert (quantityOf pid toId stock = StockLine.quantity d) as Hq'.
    { unfold quantityOf. by rewrite Hdst. }
    rewrite (quantityOf_alter pid toId (fun d => StockLine.quantity d + qty) j d).
    + rewrite E1.
      destruct (decide ((pid, toId) = (p, w))) as [Eto|];
        destruct (decide ((pid, fromId) = (p, w))) as [Efrom|].
      * congruence.
      * injection Eto as <- <-. lia.
      * injection Efrom as <- <-. lia.
      * lia.
    + rewrite find_line_alter, Hdst. simpl.
      rewrite decide_False by done. reflexivity.
  - rewrite quantityOf_app, find_line_alter.
    destruct (find_line p w stock) as [[k x]|] eqn:Hpw; simpl.
    + rewrite E1.
      destruct (decide ((pid, toId) = (p, w))) as [Eto|].
      { injection Eto as <- <-. congruence. }
      destruct (decide ((pid, fromId) = (p, w))) as [Efrom|]; [| lia].
      injection Efrom as <- <-. lia.
    + rewrite quantityOf_cons, quantityOf_nil. unfold line_key. simpl.
      rewrite (find_line_None_quantity _ _ _ Hpw).
      destruct (decide ((pid, toId) = (p, w)));
        destruct (decide ((pid, fromId) = (p, w))) as [Efrom|]; try lia.
      all: injection Efrom as <- <-; congruence.
Qed.

(** Every field of the record an accepted transfer returns. *)
Lemma performStockTransfer_record (clk : TransferClock) (req : TransferRequest)
    (st st' : Store) (record : TransferRecord.t) (stock2 : list StockLine.t) :
  performStockTransfer clk req st = (st', inr (record, stock2)) →
  ∃ pid fromId toId qty,
    req = mkRequest (Finite pid) (Finite fromId) (Finite toId) (Finite qty) ∧
    record = TransferRecord.mk
               (transfer_id (clock_idIso clk) (length (transfers st)))
               pid fromId toId qty (clock_createdIso clk) "COMPLETED".
Proof.
  unfold performStockTransfer. destruct st as [ps ws sk ts als].
  destruct req as [p f t q]. run_M.
  intros H.
  repeat (case_match; simplify_eq; try done).
  all: eexists _, _, _, _; split; reflexivity.
Qed.

(* ------------------------------------------------------------------ *)
(** ** Accepted transfers, one and many *)



Lemma moved_stock_keys (clk : TransferClock) (pid toId qty : Z) (i : nat)
    (src : StockLine.t) (stock : list StockLine.t) :
  line_key <$> moved_stock clk pid toId qty i src stock =
  (line_key <$> stock) ++
  match find_line pid toId stock with
  | Some _ => []
  | None => [(pid, toId)]
  end.
Proof.
  rewrite moved_stock_unfold. cbv zeta.
  destruct (find_line pid toId stock) as [[j d]|].
  - rewrite !line_key_alter, app_nil_r. reflexivity.
  - rewrite fmap_app, line_key_alter. reflexivity.
Qed.

(** X2.  Transfers never delete or reorder stock lines and never change the
    (product, warehouse) pair of one: the pairs of the ledger before are a
    prefix of the pairs after.  If no pair occurred twice before, none
    occurs twice after. *)
Theorem transfers_keep_line_keys (st st' : Store) :
  transfers_reach st st' →
  line_key <$> stock st `prefix_of` line_key <$> stock st' ∧
  (NoDup (line_key <$> stock st) → NoDup (line_key <$> stock st')).
Proof.
  induction 1 as [|st' st'' clk req res _ [IHpre IHnd] Hrun].
  - split; [reflexivity | done].
  - apply performStockTransfer_inv in Hrun. destruct res as [record stock2].
    destruct Hrun as (pid & fromId & toId & qty & i & src &
                      _ & _ & _ & _ & _ & -> & _ & ->).
    simpl. rewrite moved_stock_keys. split.
    + etrans; [exact IHpre |]. by apply prefix_app_r.
    + intros Hnd. specialize (IHnd Hnd).
      destruct (find_line pid toId (stock st')) as [[j d]|] eqn:Hdst.
      * by rewrite app_nil_r.
      * apply NoDup_app. split; [exact IHnd |]. split; [| apply NoDup_singleton].
        intros k Hk Hk'. apply list_elem_of_singleton in Hk'. subst k.
        by apply find_line_None_key in Hdst.
Qed.

Lemma transfers_keep_line_keys_witness :
  let st' := fst (performStockTransfer Sample.clock
                    (mkRequest (Finite 1) (Finite 1) (Finite 3) (Finite 20))
                    Sample.store) in
  line_key <$> stock Sample.store `prefix_of` line_key <$> stock st' ∧
  (NoDup (line_key <$> stock Sample.store) → NoDup (line_key <$> stock st')).
Proof.
  apply transfers_keep_line_keys.
  eapply reach_transfer with
    (clk := Sample.clock)
    (req := mkRequest (Finite 1) (Finite 1) (Finite 3) (Finite 20));
    [apply reach_start |].
  vm_compute. reflexivity.
Defined.

(** X3.  Over any sequence of accepted transfers the log only grows at the
    front: the log before is a suffix of the log after, and every record put
    in front is COMPLETED, with a positive quantity and two different
    warehouses.  The catalog and the alerts are not written. *)
Theorem transfer_log_append_only (st st' : Store) :
  transfers_reach st st' →
  (∃ news,
     transfers st' = news ++ transfers st ∧
     Forall (fun r => TransferRecord.status r = "COMPLETED" ∧
                      0 < TransferRecord.quantity r ∧
                      TransferRecord.fromWarehouseId r ≠ TransferRecord.toWarehouseId r)
            news) ∧
  products st' = products st ∧
  warehouses st' = warehouses st ∧
  alerts st' = alerts st.
Proof.
  induction 1 as [|st' st'' clk req res _ IH Hrun].
  - split; [| done]. exists []. split; [reflexivity | constructor].
  - destruct IH as ((news & Hlog & Hnews) & Hp & Hw & Ha).
    destruct res as [record stock2].
    pose proof (performStockTransfer_record _ _ _ _ _ _ Hrun)
      as (pid & fromId & toId & qty & Hreq & Hrec).
    apply performStockTransfer_inv in Hrun.
    destruct Hrun as (pid' & fromId' & toId' & qty' & i & src &
                      Hreq' & Hne & Hpos & _ & _ & _ & _ & ->).
    rewrite Hreq in Hreq'. injection Hreq' as <- <- <- <-.
    simpl. split; [| done].
    exists (record :: news). rewrite Hlog. split; [reflexivity |].
    constructor; [| exact Hnews]. subst record. simpl. auto.
Qed.

Lemma transfer_log_append_only_witness :
  let st' := fst (performStockTransfer Sample.clock
                    (mkRequest (Finite 1) (Finite 1) (Finite 3) (Finite 20))
                    Sample.store) in
  (∃ news,
     transfers st' = news ++ transfers Sample.store ∧
     Forall (fun r => TransferRecord.status r = "COMPLETED" ∧
                      0 < TransferRecord.quantity r ∧
                      TransferRecord.fromWarehouseId r ≠ TransferRecord.toWarehouseId r)
            news) ∧
  products st' = products Sample.store ∧
  warehouses st' = warehouses Sample.store ∧
  alerts st' = alerts Sample.store.
Proof.
  apply transfer_log_append_only.
  eapply reach_transfer with
    (clk := Sample.clock)
    (req := mkRequest (Finite 1) (Finite 1) (Finite 3) (Finite 20));
    [apply reach_start |].
  vm_compute. reflexivity.
Defined.

(* ------------------------------------------------------------------ *)
(** ** Transfer identifiers *)

Lemma digit_value_pretty_N_char (y : N) :
  (y < 10)%N → digit_value (pretty_N_char y) = y.
Proof.
  intros Hy.
  assert (y = 0 ∨ y = 1 ∨ y = 2 ∨ y = 3 ∨ y = 4 ∨ y = 5 ∨ y = 6 ∨ y = 7
          ∨ y = 8 ∨ y = 9)%N as Hcases by lia.
  repeat (destruct Hcases as [-> | Hcases]; [reflexivity |]).
  subst y. reflexivity.
Qed.

Lemma decimal_value_pretty_N_go (x : N) (s : string) :
  decimal_value (pretty_N_go x s) =
  (x * 10 ^ N.of_nat (String.length s) + decimal_value s)%N.
Proof.
  revert s. induction (N.lt_wf_0 x) as [x _ IH]; intros s.
  destruct (decide (x = 0)%N) as [->|Hx].
  - rewrite pretty_N_go_0. lia.
  - rewrite pretty_N_go_step by lia.
    rewrite IH by (apply N.div_lt; lia).
    cbn [decimal_value String.length].
    rewrite digit_value_pretty_N_char by (apply N.mod_lt; lia).
    rewrite Nat2N.inj_succ, N.pow_succ_r'.
    pose proof (N.div_mod x 10 ltac:(lia)) as Hdm.
    set (q := (x `div` 10)%N) in *. set (r := (x `mod` 10)%N) in *.
    set (t := (10 ^ N.of_nat (String.length s))%N).
    rewrite Hdm. lia.
Qed.

(** Printing a number in decimal and reading it back. *)
Lemma decimal_value_pretty_nat (n : nat) :
  decimal_value (pretty n) = N.of_nat n.
Proof.
  unfold pretty, pretty_nat, pretty, pretty_N.
  destruct (decide (N.of_nat n = 0)%N) as [->|Hn]; [reflexivity |].
  rewrite decimal_value_pretty_N_go. cbn [String.length decimal_value]. lia.
Qed.

Lemma decimal_value_zeros (m : nat) (s : string) :
  decimal_value (string_of_list_ascii (replicate m "0"%char) +:+ s)
  = decimal_value s.
Proof.
  induction m as [|m IH]; [reflexivity |].
  change (decimal_value
            (String "0" (string_of_list_ascii (replicate m "0"%char) +:+ s))
          = decimal_value s).
  rewrite <- IH. generalize (string_of_list_ascii (replicate m "0"%char) +:+ s).
  intros t. cbn [decimal_value]. change (digit_value "0") with 0%N. lia.
Qed.

Lemma decimal_value_padStart (n : nat) (s : string) :
  decimal_value (padStart n "0" s) = decimal_value s.
Proof. apply decimal_value_zeros. Qed.

Lemma dash_free_remove_char (s : string) : dash_free (remove_char "-" s).
Proof.
  induction s as [|c s IH]; [exact I |].
  cbn [remove_char]. destruct (Ascii.eqb "-" c) eqn:E; [exact IH |].
  split; [| exact IH]. intros ->. by rewrite Ascii.eqb_refl in E.
Qed.

Lemma after_dash_app (d s : string) :
  dash_free d → after_dash (d +:+ String "-" s) = s.
Proof.
  induction d as [|c d IH]; intros Hd.
  - reflexivity.
  - destruct Hd as [Hc Hd]. simpl.
    destruct (Ascii.eqb c "-") eqn:E.
    + apply Ascii.eqb_eq in E. done.
    + by apply IH.
Qed.

(** The sequence number of a transfer identifier reads back as one more
    than the number of records that were in the log. *)
Lemma id_sequence_transfer_id (iso : string) (count : nat) :
  id_sequence (transfer_id iso count) = N.of_nat (count + 1).
Proof.
  change (transfer_id iso count) with
    (String "T" (String "-"
       (remove_char "-" (slice0 10 iso)
        +:+ String "-" (padStart 4 "0" (pretty (count + 1)%nat))))).
  unfold id_sequence.
  rewrite after_dash_app by apply dash_free_remove_char.
  rewrite decimal_value_padStart. apply decimal_value_pretty_nat.
Qed.

Lemma log_sequenced_ids (l : list TransferRecord.t) :
  log_sequenced l →
  Forall (fun r => (0 < id_sequence (TransferRecord.id r)
                    ≤ N.of_nat (length l))%N) l.
Proof.
  induction 1 as [|r l iso _ IH Hid]; [constructor |].
  constructor.
  - rewrite Hid, id_sequence_transfer_id. simpl. lia.
  - eapply Forall_impl; [exact IH |]. simpl. intros r'. lia.
Qed.

Lemma log_sequenced_NoDup (l : list TransferRecord.t) :
  log_sequenced l → NoDup (TransferRecord.id <$> l).
Proof.
  induction 1 as [|r l iso Hl IH Hid]; [apply NoDup_nil_2 |].
  rewrite fmap_cons. apply NoDup_cons. split; [| exact IH].
  intros Hin. apply list_elem_of_fmap in Hin as (r' & Heq & Hr').
  pose proof (log_sequenced_ids l Hl) as Hall.
  rewrite Forall_forall in Hall. specialize (Hall r' Hr').
  rewrite <- Heq, Hid, id_sequence_transfer_id in Hall. lia.
Qed.

Lemma transfers_keep_log_sequenced (st st' : Store) :
  transfers_reach st st' →
  log_sequenced (transfers st) → log_sequenced (transfers st').
Proof.
  induction 1 as [|st' st'' clk req res _ IH Hrun]; [done |].
  intros Hseq. specialize (IH Hseq). destruct res as [record stock2].
  pose proof (performStockTransfer_record _ _ _ _ _ _ Hrun)
    as (pid & fromId & toId & qty & _ & Hrec).
  apply performStockTransfer_inv in Hrun.
  destruct Hrun as (? & ? & ? & ? & ? & ? & _ & _ & _ & _ & _ & _ & _ & ->).
  simpl. eapply sequenced_cons; [exact IH |]. subst record. reflexivity.
Qed.

(** X4.  In a log built by accepted transfers from the empty log no two
    records have the same identifier, whatever the clock returned: the
    sequence number in the identifier of a record is its position in the
    log, counted from the oldest. *)
Theorem transfer_ids_distinct (st st' : Store) :
  transfers st = [] →
  transfers_reach st st' →
  NoDup (TransferRecord.id <$> transfers st') ∧
  Forall (fun r => (0 < id_sequence (TransferRecord.id r)
                    ≤ N.of_nat (length (transfers st')))%N) (transfers st').
Proof.
  intros Hempty Hreach.
  assert (log_sequenced (transfers st')) as Hseq.
  { apply (transfers_keep_log_sequenced st st' Hreach).
    rewrite Hempty. constructor. }
  split; [by apply log_sequenced_NoDup | by apply log_sequenced_ids].
Qed.

Lemma transfer_ids_distinct_witness :
  let st1 := fst (performStockTransfer Sample.clock
                    (mkRequest (Finite 1) (Finite 1) (Finite 3) (Finite 20))
                    Sample.store) in
  let st2 := fst (performStockTransfer Sample.clock
                    (mkRequest (Finite 1) (Finite 1) (Finite 3) (Finite 10))
                    st1) in
  NoDup (TransferRecord.id <$> transfers st2) ∧
  Forall (fun r => (0 < id_sequence (TransferRecord.id r)
                    ≤ N.of_nat (length (transfers st2)))%N) (transfers st2).
Proof.
  apply (transfer_ids_distinct Sample.store); [reflexivity |].
  eapply reach_transfer with
    (clk := Sample.clock)
    (req := mkRequest (Finite 1) (Finite 1) (Finite 3) (Finite 10)).
  - eapply reach_transfer with
      (clk := Sample.clock)
      (req := mkRequest (Finite 1) (Finite 1) (Finite 3) (Finite 20));
      [apply reach_start |].
    vm_compute. reflexivity.
  - vm_compute. reflexivity.
Defined.

(* ------------------------------------------------------------------ *)
(** ** Transfers and the derived views *)

Lemma transfers_keep_totals (st st' : Store) :
  transfers_reach st st' →
  ∀ pid, totalStockForProduct pid (stock st') = totalStockForProduct pid (stock st).
Proof.
  induction 1 as [|st' st'' clk req res _ IH Hrun]; [done |].
  intros q. rewrite <- IH.
  apply performStockTransfer_inv in Hrun. destruct res as [record stock2].
  destruct Hrun as (pid & fromId & toId & qty & i & src &
                    _ & Hne & _ & Hsrc & _ & -> & _ & ->).
  simpl. eapply moved_stock_total; eauto.
Qed.

Lemma transfers_keep_catalog (st st' : Store) :
  transfers_reach st st' →
  products st' = products st ∧ warehouses st' = warehouses st ∧
  alerts st' = alerts st.
Proof.
  induction 1 as [|st' st'' clk req res _ IH Hrun]; [done |].
  apply performStockTransfer_inv in Hrun. destruct res as [record stock2].
  destruct Hrun as (? & ? & ? & ? & ? & ? & _ & _ & _ & _ & _ & _ & _ & ->).
  exact IH.
Qed.



Lemma reconcile_array_totals (now : string) (stock stock' : list StockLine.t)
    (l : list Alert.t) (p : Product.t) :
  totalStockForProduct (Product.id p) stock' = totalStockForProduct (Product.id p) stock →
  reconcile_array now stock' l p = reconcile_array now stock l p.
Proof. intros H. unfold reconcile_array. rewrite H. reflexivity. Qed.



Lemma moved_stock_warehouse (clk : TransferClock) (pid fromId toId qty : Z)
    (i : nat) (src : StockLine.t) (stock : list StockLine.t) (w : Z) :
  find_line pid fromId stock = Some (i, src) →
  fromId ≠ toId →
  warehouseStock w (moved_stock clk pid toId qty i src stock) =
  warehouseStock w stock
  + (if decide (toId = w) then qty else 0)
  - (if decide (fromId = w) then qty else 0).
Proof.
  intros Hsrc Hne. apply find_line_Some in Hsrc as (Hi & Hp & Hw).
  rewrite moved_stock_unfold. cbv zeta. rewrite !warehouseStock_selected.
  pose proof (selected_total_alter (fun s => StockLine.warehouseId s = w)
                (fun _ => StockLine.quantity src - qty) i src stock
                ltac:(reflexivity) Hi) as E1.
  simpl in E1. rewrite Hw in E1.
  destruct (find_line pid toId stock) as [[j d]|] eqn:Hdst.
  - apply find_line_Some in Hdst as (Hj & Hp' & Hw').
    assert (i ≠ j) by (intros ->; congruence).
    rewrite (selected_total_alter (fun s => StockLine.warehouseId s = w)
               (fun d => StockLine.quantity d + qty) j d);
      [| reflexivity | by rewrite list_lookup_alter_ne].
    rewrite E1, Hw'.
    destruct (decide (toId = w)); destruct (decide (fromId = w)); lia.
  - rewrite selected_total_app, E1, selected_total_cons. simpl.
    change (selected_total (fun s => StockLine.warehouseId s = w) []) with 0.
    destruct (decide (toId = w)); destruct (decide (fromId = w)); lia.
Qed.



(* ------------------------------------------------------------------ *)
(** ** Categories in integer arithmetic *)

Lemma categorizeStock_Z (total rp : Z) :
  categorizeStock total rp =
  if rp <=? 0 then adequate
  else if 2 * total <? rp then critical
  else if total <? rp then low
  else if total <? 2 * rp then adequate
  else overstocked.
Proof.
  unfold categorizeStock. destruct (rp <=? 0); [reflexivity |].
  destruct (Qltb _ _) eqn:E.
  - apply Qltb_lt, half_lt in E. apply Z.ltb_lt in E. by rewrite E.
  - apply Qltb_ge, half_le in E. apply Z.ltb_ge in E. by rewrite E.
Qed.

Ltac categorize :=
  rewrite ?categorizeStock_Z;
  repeat match goal with
  | |- context [?a <=? ?b] => destruct (Z.leb_spec a b)
  | |- context [?a <? ?b] => destruct (Z.ltb_spec a b)
  end; simpl; try lia; try reflexivity; try discriminate.

(** X8.  For a fixed reorder point a larger total is never more severe,
    from overstocked through adequate and low to critical. *)
Theorem categorizeStock_monotone (total total' reorderPoint : Z) :
  total <= total' →
  (severity (categorizeStock total' reorderPoint)
   ≤ severity (categorizeStock total reorderPoint))%nat.
Proof. intros Hle. categorize. Qed.

Lemma categorizeStock_monotone_witness :
  (severity (categorizeStock 120 100) ≤ severity (categorizeStock 40 100))%nat.
Proof. apply categorizeStock_monotone. lia. Defined.

(** X9.  The recommended quantity is never negative, and it is positive
    exactly when the category is critical or low. *)
Theorem recommendedQty_positive_iff_alert (total reorderPoint : Z) :
  0 <= fst (recommendReorder total reorderPoint) ∧
  (0 < fst (recommendReorder total reorderPoint) ↔
   critical_or_low (categorizeStock total reorderPoint) = true).
Proof.
  unfold recommendReorder. rewrite critical_target_Z.
  pose proof (Z.div_mod (3 * reorderPoint + 1) 2 ltac:(lia)).
  pose proof (Z.mod_pos_bound (3 * reorderPoint + 1) 2 ltac:(lia)).
  rewrite !categorizeStock_Z.
  destruct (Z.leb_spec reorderPoint 0); [simpl; split; [lia | split; [lia | done]] |].
  destruct (Z.ltb_spec (2 * total) reorderPoint);
    [simpl; split; [lia | split; [done | lia]] |].
  destruct (Z.ltb_spec total reorderPoint);
    [simpl; split; [lia | split; [done | lia]] |].
  destruct (Z.ltb_spec total (2 * reorderPoint));
    simpl; (split; [lia | split; [lia | done]]).
Qed.


Lemma low_flag_is_category (total rp : Z) :
  0 <= total →
  (total <? rp) = critical_or_low (categorizeStock total rp).
Proof. intros Hnn. categorize. Qed.

(* ------------------------------------------------------------------ *)
(** ** The dashboard views *)

(** X11.  On a ledger without negative quantities the inventory overview
    has one row per product of the catalog, in catalog order, with the
    product's total over all warehouses, and its low-stock flag is set
    exactly for the products the reconciler categorizes as critical or low. *)
Theorem overview_flags_match_categories (st : Store) :
  ledger_nonneg (stock st) →
  ∃ rows,
    getInventoryOverview st = (st, inr rows) ∧
    OverviewRow.product <$> rows = products st ∧
    Forall (fun row =>
              OverviewRow.totalQuantity row =
                totalStockForProduct (Product.id (OverviewRow.product row)) (stock st) ∧
              OverviewRow.isLowStock row =
                critical_or_low
                  (categorizeStock (OverviewRow.totalQuantity row)
                     (Product.reorderPoint (OverviewRow.product row))))
           rows.
Proof.
  intros Hnn. eexists. split; [reflexivity |]. split.
  - rewrite <- list_fmap_compose. apply list_fmap_id.
  - apply Forall_fmap, Forall_forall. intros p _. simpl. split; [reflexivity |].
    apply low_flag_is_category.
    rewrite totalStockForProduct_selected. by apply selected_total_nonneg.
Qed.

Lemma overview_flags_match_categories_witness :
  ∃ rows,
    getInventoryOverview Sample.store2 = (Sample.store2, inr rows) ∧
    OverviewRow.product <$> rows = products Sample.store2 ∧
    Forall (fun row =>
              OverviewRow.totalQuantity row =
                totalStockForProduct (Product.id (OverviewRow.product row))
                  (stock Sample.store2) ∧
              OverviewRow.isLowStock row =
                critical_or_low
                  (categorizeStock (OverviewRow.totalQuantity row)
                     (Product.reorderPoint (OverviewRow.product row))))
           rows.
Proof.
  apply overview_flags_match_categories.
  unfold ledger_nonneg. simpl. repeat constructor; simpl; lia.
Defined.

Lemma sumZ_add {A} (f g : A → Z) (l : list A) :
  sumZ ((fun x => f x + g x) <$> l) = sumZ (f <$> l) + sumZ (g <$> l).
Proof.
  induction l as [|x l IH]; [reflexivity |].
  rewrite !fmap_cons. unfold sumZ in *. simpl. rewrite IH. lia.
Qed.

Lemma sumZ_indicator (x q : Z) (ws : list Warehouse.t) :
  NoDup (Warehouse.id <$> ws) →
  x ∈ Warehouse.id <$> ws →
  sumZ ((fun wh => if decide (x = Warehouse.id wh) then q else 0) <$> ws) = q.
Proof.
  induction ws as [|w ws IH]; intros Hnd Hin.
  - by apply elem_of_nil in Hin.
  - rewrite fmap_cons in Hnd, Hin. apply NoDup_cons in Hnd as [Hnotin Hnd].
    rewrite fmap_cons. unfold sumZ in *. simpl.
    destruct (decide (x = Warehouse.id w)) as [->|Hne].
    + assert (foldr Z.add 0
                ((fun wh => if decide (Warehouse.id w = Warehouse.id wh) then q else 0)
                   <$> ws) = 0) as ->; [| lia].
      clear IH Hnd Hin. induction ws as [|w' ws IH]; [reflexivity |].
      rewrite fmap_cons in Hnotin. apply not_elem_of_cons in Hnotin as [Hne Hnotin].
      rewrite fmap_cons. simpl. rewrite decide_False by done. rewrite IH by done. lia.
    + apply elem_of_cons in Hin as [Hin | Hin]; [done |].
      rewrite IH by done. lia.
Qed.



(* ------------------------------------------------------------------ *)
(** ** What a pass of the reconciler does and does not do *)

Lemma touched_refl (now : string) (a : Alert.t) : touched now a a.
Proof. unfold touched. repeat split; auto. Qed.

Lemma touched_trans (now : string) (a b c : Alert.t) :
  touched now a b → touched now b c → touched now a c.
Proof.
  intros (H1 & H2 & H3 & H4 & H5 & H6 & H7 & Hab)
         (K1 & K2 & K3 & K4 & K5 & K6 & K7 & Hbc).
  unfold touched. repeat (split; [congruence |]).
  destruct Hab as [-> | (Hu & Hopen & Hst & Hcat)]; [exact Hbc |].
  destruct Hbc as [-> | (Hu' & Hopen' & Hst' & Hcat')]; [right; auto |].
  right. split; [exact Hu' |]. split; [exact Hopen |].
  destruct Hst as [Hst | Hst]; [| done]. split.
  - destruct Hst' as [Hst' | Hst']; [left; congruence | by right].
  - destruct Hcat' as [Hcat' | Hcat']; [| by right].
    destruct Hcat as [Hcat | Hcat]; [left; congruence | right; congruence].
Qed.

Lemma created_touched (now : string) (a b : Alert.t) :
  created now a → touched now a b → created now b.
Proof.
  intros (C1 & C2 & C3 & C4 & C5) (_ & _ & _ & _ & _ & K6 & K7 & Hab).
  destruct Hab as [-> | (Hu & Hopen & Hst & Hcat)]; [done |].
  unfold created. split; [congruence |]. split; [exact Hu |].
  split; [congruence |]. split.
  - destruct Hcat as [-> | Hcat]; done.
  - destruct Hst as [Hst | Hst]; [| by right].
    destruct C5 as [C5 | C5]; [left; congruence | congruence].
Qed.

Lemma touched_refresh (now : string) (total : Z) (category : Category)
    (recommendedQty : Z) (note : string) (a : Alert.t) :
  critical_or_low category = true →
  touched now a (refresh_alert total category recommendedQty note now a).
Proof.
  intros Hcat. unfold refresh_alert. case_bool_decide as Hopen;
    [| apply touched_refl].
  unfold touched. simpl. repeat (split; [reflexivity |]). right. auto.
Qed.

Lemma touched_resolve (now : string) (a : Alert.t) :
  touched now a (resolve_alert now a).
Proof.
  unfold resolve_alert. case_bool_decide as Hopen; [| apply touched_refl].
  unfold touched. simpl. repeat (split; [reflexivity |]). right. auto.
Qed.

Lemma reconcile_array_shape (now : string) (stock : list StockLine.t)
    (l : list Alert.t) (p : Product.t) :
  ∃ news olds,
    reconcile_array now stock l p = news ++ olds ∧
    Forall2 (touched now) l olds ∧
    Forall (created now) news.
Proof.
  unfold reconcile_array.
  destruct (recommendReorder _ _) as [recommendedQty note].
  destruct (critical_or_low _) eqn:Hcat;
    destruct (last_index (Product.id p) l) as [j|].
  - eexists [], _. split; [reflexivity |]. split; [| constructor].
    apply Forall2_alter_r; [apply Forall2_same, touched_refl |].
    intros a b _ _ Hab. eapply touched_trans; [exact Hab |].
    by apply touched_refresh.
  - eexists [_], l. split; [reflexivity |].
    split; [apply Forall2_same, touched_refl |].
    repeat constructor; simpl; auto.
  - eexists [], _. split; [reflexivity |]. split; [| constructor].
    apply Forall2_alter_r; [apply Forall2_same, touched_refl |].
    intros a b _ _ Hab. eapply touched_trans; [exact Hab |].
    apply touched_resolve.
  - exists [], l. split; [reflexivity |].
    split; [apply Forall2_same, touched_refl | constructor].
Qed.

Lemma Forall2_touched_trans (now : string) (l k m : list Alert.t) :
  Forall2 (touched now) l k → Forall2 (touched now) k m →
  Forall2 (touched now) l m.
Proof.
  intros H. revert m. induction H as [|a b l k Hab _ IH]; intros m Hm;
    inversion Hm as [|? c ? m' Hbc Hrest]; subst; constructor.
  - by eapply touched_trans.
  - by apply IH.
Qed.

Lemma Forall_created_touched (now : string) (l k : list Alert.t) :
  Forall (created now) l → Forall2 (touched now) l k → Forall (created now) k.
Proof.
  intros Hl H. induction H as [|a b l k Hab _ IH]; [constructor |].
  apply Forall_cons in Hl as [Ha Hl]. constructor; [| by apply IH].
  by eapply created_touched.
Qed.

Lemma reconcile_loop_shape (now : string) (stock : list StockLine.t)
    (ps : list Product.t) (l : list Alert.t) :
  ∃ news olds,
    foldl (reconcile_array now stock) l ps = news ++ olds ∧
    Forall2 (touched now) l olds ∧
    Forall (created now) news.
Proof.
  revert l. induction ps as [|p ps IH]; intros l; simpl.
  - exists [], l. split; [reflexivity |].
    split; [apply Forall2_same, touched_refl | constructor].
  - destruct (reconcile_array_shape now stock l p) as (news1 & olds1 & -> & H1 & C1).
    destruct (IH (news1 ++ olds1)) as (news2 & olds2 & -> & H2 & C2).
    apply Forall2_app_inv_l in H2 as (k1 & k2 & Hk1 & Hk2 & ->).
    exists (news2 ++ k1), k2. split; [by rewrite app_assoc |]. split.
    + exact (Forall2_touched_trans now l olds1 k2 H1 Hk2).
    + apply Forall_app. split; [exact C2 |].
      exact (Forall_created_touched now news1 k1 C1 Hk1).
Qed.

(** X13.  A pass of [generateAlerts] at time [now] writes the alerts file
    only, never throws, and saves the alerts it found in their order, behind
    the alerts it allocated.  Of an alert it found it never changes the id,
    the product snapshot, the creation time or the comment; it either leaves
    the alert as it is or stamps it with [now], and only an unresolved alert,
    whose workflow status it keeps or sets to RESOLVED.  An alert it
    allocated was created and updated at [now], has no comment and a
    critical or low category. *)
Theorem generateAlerts_shape (now : string) (st : Store) :
  ∃ news olds,
    generateAlerts now st =
      (mkStore (products st) (warehouses st) (stock st) (transfers st)
               (news ++ olds),
       inr (news ++ olds)) ∧
    Forall2 (touched now) (alerts st) olds ∧
    Forall (created now) news.
Proof.
  destruct (reconcile_loop_shape now (stock st) (products st) (alerts st))
    as (news & olds & Heq & H1 & H2).
  exists news, olds. split; [| done].
  rewrite generateAlerts_run. cbv zeta. rewrite Heq. reflexivity.
Qed.

Lemma reconcile_array_keeps_products (now : string) (stock : list StockLine.t)
    (l : list Alert.t) (q : Product.t) (pid : Z) :
  pid ∈ Alert.productId <$> l →
  pid ∈ Alert.productId <$> reconcile_array now stock l q.
Proof.
  intros Hin. unfold reconcile_array.
  destruct (recommendReorder _ _) as [recommendedQty note].
  destruct (critical_or_low _);
    destruct (last_index (Product.id q) l) as [j|].
  - by rewrite productId_alter by apply productId_refresh_alert.
  - rewrite fmap_cons. by apply list_elem_of_further.
  - by rewrite productId_alter by apply productId_resolve_alert.
  - exact Hin.
Qed.

Lemma reconcile_array_own_product (now : string) (stock : list StockLine.t)
    (l : list Alert.t) (p : Product.t) :
  critical_or_low
    (categorizeStock (totalStockForProduct (Product.id p) stock)
       (Product.reorderPoint p)) = true →
  Product.id p ∈ Alert.productId <$> reconcile_array now stock l p.
Proof.
  intros Hcat. unfold reconcile_array.
  destruct (recommendReorder _ _) as [recommendedQty note]. rewrite Hcat.
  destruct (last_index (Product.id p) l) as [j|] eqn:Hj.
  - rewrite productId_alter by apply productId_refresh_alert.
    apply last_index_Some in Hj as (a & Ha & <-).
    apply list_elem_of_fmap. exists a. split; [reflexivity |].
    eapply list_elem_of_lookup_2; eauto.
  - rewrite fmap_cons. apply list_elem_of_here.
Qed.

(** X14.  After a pass every product of the catalog whose category is
    critical or low has an alert in the collection (of whatever workflow
    status). *)
Theorem generateAlerts_covers_breaches (now : string) (st : Store) (p : Product.t) :
  p ∈ products st →
  critical_or_low
    (categorizeStock (totalStockForProduct (Product.id p) (stock st))
       (Product.reorderPoint p)) = true →
  Product.id p ∈ Alert.productId <$> alerts_after_generate now st.
Proof.
  intros Hin Hcat. rewrite alerts_after_generate_eq.
  generalize (alerts st). induction (products st) as [|q ps IH]; intros l.
  - by apply elem_of_nil in Hin.
  - simpl. apply elem_of_cons in Hin as [<- | Hin]; [| by apply IH].
    assert (Product.id p ∈ Alert.productId <$> reconcile_array now (stock st) l p)
      as Hp by by apply reconcile_array_own_product.
    clear IH. revert Hp. generalize (reconcile_array now (stock st) l p).
    induction ps as [|q ps IH]; intros k Hk; simpl; [exact Hk |].
    apply IH. by apply reconcile_array_keeps_products.
Qed.

Lemma generateAlerts_covers_breaches_witness :
  Product.id Sample.P2 ∈
    Alert.productId <$> alerts_after_generate Sample.t1 Sample.store2.
Proof.
  apply generateAlerts_covers_breaches.
  - apply list_elem_of_further, list_elem_of_here.
  - reflexivity.
Defined.

(** X15.  With distinct product ids in the catalog and at most one alert per
    product in the collection, after a pass every alert of a catalog product
    is either resolved or an open alert of a critical or low product that
    carries the product's current total, category, recommended quantity and
    note.  So every alert of an adequate or overstocked product is resolved. *)
Theorem generateAlerts_settles (now : string) (st : Store) (p : Product.t)
    (a : Alert.t) :
  NoDup (Product.id <$> products st) →
  NoDup (Alert.productId <$> alerts st) →
  p ∈ products st →
  a ∈ alerts_after_generate now st →
  Alert.productId a = Product.id p →
  let total := totalStockForProduct (Product.id p) (stock st) in
  let category := categorizeStock total (Product.reorderPoint p) in
  Alert.workflowStatus a = "RESOLVED" ∨
  (critical_or_low category = true ∧
   Alert.workflowStatus a ≠ "RESOLVED" ∧
   Alert.totalStock a = total ∧
   Alert.category a = category ∧
   Alert.recommendedQty a = fst (recommendReorder total (Product.reorderPoint p)) ∧
   Alert.note a = snd (recommendReorder total (Product.reorderPoint p))).
Proof.
  intros Hps Has Hp Ha Hpid total category.
  pose proof (generateAlerts_NoDup now st Has) as Hnd.
  pose proof (settled_after_pass (stock st) now (products st) (alerts st) Hps)
    as Hsettled.
  rewrite Forall_forall in Hsettled. specialize (Hsettled p Hp).
  rewrite alerts_after_generate_eq in Ha, Hnd.
  set (result := foldl (reconcile_array now (stock st)) (alerts st) (products st)) in *.
  unfold settled in Hsettled.
  destruct (last_index (Product.id p) result) as [j|] eqn:Hj.
  - destruct Hsettled as (a' & Ha' & Hcond).
    apply list_elem_of_lookup in Ha as [i Hi].
    apply last_index_Some in Hj as (a'' & Hj & Hpid').
    assert (i = j) as ->.
    { apply (NoDup_lookup _ i j (Product.id p) Hnd);
        rewrite list_lookup_fmap; [rewrite Hi | rewrite Hj]; simpl; congruence. }
    assert (a = a') as <- by congruence. exact Hcond.
  - apply last_index_None in Hj. exfalso. apply Hj.
    apply list_elem_of_fmap. exists a. by split.
Qed.

Lemma generateAlerts_settles_witness :
  let a := new_alert Sample.t1 Sample.P2 30 low 20 "Raise to RP (50)" in
  a ∈ alerts_after_generate Sample.t1 Sample.store2 ∧
  (Alert.workflowStatus a = "RESOLVED" ∨
   (true = true ∧ Alert.workflowStatus a ≠ "RESOLVED" ∧
    Alert.totalStock a = 30 ∧ Alert.category a = low ∧
    Alert.recommendedQty a = 20 ∧ Alert.note a = "Raise to RP (50)")).
Proof.
  intros a.
  assert (a ∈ alerts_after_generate Sample.t1 Sample.store2) as Ha.
  { unfold a. vm_compute. apply list_elem_of_here. }
  split; [exact Ha |].
  apply (generateAlerts_settles Sample.t1 Sample.store2 Sample.P2 a);
    [ apply (bool_decide_unpack _); vm_compute; exact I
    | apply NoDup_nil_2
    | apply list_elem_of_further, list_elem_of_here
    | exact Ha
    | reflexivity ].
Defined.

(* ------------------------------------------------------------------ *)
(** ** The workflow manager: failures, and manual resolution *)

Lemma updateAlertStatus_inv (now id workflowStatus : string)
    (comment : option string) (st st' : Store) (r : Error + Alert.t) :
  updateAlertStatus now id workflowStatus comment st = (st', r) →
  match r with
  | inl _ => st' = st
  | inr alert' =>
      ∃ i alert,
        list_find (fun a => Alert.id a = id) (alerts st) = Some (i, alert) ∧
        workflowStatus ∈ valid ∧
        alert' = apply_status now workflowStatus comment alert ∧
        st' = mkStore (products st) (warehouses st) (stock st) (transfers st)
                      (<[i := alert']> (alerts st))
  end.
Proof.
  unfold updateAlertStatus. run_M.
  destruct (list_find _ (alerts st)) as [[i alert]|] eqn:Hfind.
  - case_bool_decide as Hvalid; simpl; intros [= <- <-]; [| reflexivity].
    exists i, alert. destruct st. auto.
  - intros [= <- <-]. reflexivity.
Qed.

(** X16.  [updateAlertStatus] looks the alert up before it looks at the
    status: an id that no alert carries fails with "Alert not found" even
    when the status is invalid too, and an invalid status fails with
    "Invalid workflow status" only for an id that exists.  A call that fails
    has written nothing. *)
Theorem updateAlertStatus_failures (now id workflowStatus : string)
    (comment : option string) (st : Store) :
  ((∀ a, a ∈ alerts st → Alert.id a ≠ id) →
   updateAlertStatus now id workflowStatus comment st = (st, inl AlertNotFound)) ∧
  ((∃ a, a ∈ alerts st ∧ Alert.id a = id) →
   workflowStatus ∉ valid →
   updateAlertStatus now id workflowStatus comment st
   = (st, inl InvalidWorkflowStatus)) ∧
  (∀ st' e,
     updateAlertStatus now id workflowStatus comment st = (st', inl e) →
     st' = st ∧ (e = AlertNotFound ∨ e = InvalidWorkflowStatus)).
Proof.
  split; [| split].
  - intros Hnone. unfold updateAlertStatus. run_M.
    rewrite (list_find_absent (fun a => Alert.id a = id)) by done. reflexivity.
  - intros Hex Hinvalid. unfold updateAlertStatus. run_M.
    apply (list_find_is_Some (fun a => Alert.id a = id)) in Hex as [[i a] ->].
    rewrite bool_decide_eq_false_2 by done. reflexivity.
  - intros st' e Hrun. split; [exact (updateAlertStatus_inv _ _ _ _ _ _ _ Hrun) |].
    revert Hrun. unfold updateAlertStatus. run_M.
    destruct (list_find _ (alerts st)) as [[i a]|]; [| intros [= _ <-]; by left].
    case_bool_decide; simpl; intros [= _ <-]. by right.
Qed.

Lemma updateAlertStatus_failures_witness :
  updateAlertStatus Sample.t2 "A-unknown" "SHIPPED" None Sample.store_resolved
  = (Sample.store_resolved, inl AlertNotFound) ∧
  updateAlertStatus Sample.t2 "A-2024-12-01T09:00:00.000Z-1" "SHIPPED" None
    Sample.store_resolved
  = (Sample.store_resolved, inl InvalidWorkflowStatus).
Proof.
  split.
  - apply (updateAlertStatus_failures Sample.t2 "A-unknown" "SHIPPED" None
             Sample.store_resolved).
    intros a Ha. apply list_elem_of_singleton in Ha. subst a. discriminate.
  - apply (updateAlertStatus_failures Sample.t2 "A-2024-12-01T09:00:00.000Z-1"
             "SHIPPED" None Sample.store_resolved).
    + exists Sample.resolved_alert. split; [apply list_elem_of_here | reflexivity].
    + apply (bool_decide_unpack _). vm_compute. exact I.
Defined.

(** X17.  An alert resolved by hand stays as it is: after
    [updateAlertStatus] has set an alert to RESOLVED, a pass of the
    reconciler at any time keeps that alert unchanged in the collection,
    whatever the stock of its product. *)
Theorem manual_resolution_survives_reconciliation (now id : string)
    (comment : option string) (st st' : Store) (alert' : Alert.t) (now2 : string) :
  updateAlertStatus now id "RESOLVED" comment st = (st', inr alert') →
  alert' ∈ alerts st' ∧
  alert' ∈ alerts_after_generate now2 st'.
Proof.
  intros Hrun.
  apply updateAlertStatus_inv in Hrun as (i & alert & Hfind & _ & Heq & ->).
  apply list_find_Some in Hfind as (Hi & _).
  assert (<[i := alert']> (alerts st) !! i = Some alert') as Hi'.
  { apply list_lookup_insert_eq. eapply lookup_lt_Some; eauto. }
  split; [simpl; eapply list_elem_of_lookup_2; eauto |].
  destruct (generateAlerts_keeps_resolved now2
              (mkStore (products st) (warehouses st) (stock st) (transfers st)
                       (<[i := alert']> (alerts st))))
    as (news & olds & -> & Hkeep).
  simpl in Hkeep.
  destruct (Forall2_lookup_l _ _ _ _ _ Hkeep Hi') as (b & Hb & Hab).
  rewrite (Hab ltac:(subst alert'; reflexivity)) in Hb.
  apply elem_of_app. right. eapply list_elem_of_lookup_2; eauto.
Qed.

Lemma manual_resolution_survives_reconciliation_witness :
  let st1 := fst (generateAlerts Sample.t1 Sample.store) in
  let r := updateAlertStatus Sample.t2 "A-2025-01-02T10:00:00.000Z-1"
             "RESOLVED" None st1 in
  match snd r with
  | inr alert' =>
      alert' ∈ alerts (fst r) ∧
      alert' ∈ alerts_after_generate Sample.t2 (fst r)
  | inl _ => False
  end.
Proof.
  intros st1 r. destruct (snd r) as [e | alert'] eqn:Hr.
  - subst r st1. vm_compute in Hr. discriminate.
  - apply (manual_resolution_survives_reconciliation Sample.t2
             "A-2025-01-02T10:00:00.000Z-1" None st1).
    rewrite <- Hr. apply surjective_pairing.
Defined.

(* ------------------------------------------------------------------ *)
(** ** The API routes *)

Lemma message_nonempty (e : Error) (fallback : string) :
  or_else (message e) fallback = message e.
Proof. destruct e; reflexivity. Qed.

Lemma eqb_method (method lit : string) :
  String.eqb method lit = bool_decide (method = lit).
Proof.
  destruct (String.eqb_spec method lit) as [->|Hne].
  - by rewrite bool_decide_eq_true_2.
  - by rewrite bool_decide_eq_false_2.
Qed.

(** X18.  The route that creates a transfer answers 405 to every method but
    POST, 201 with the record when the transfer is accepted, and 400 with
    the message of the error when it is refused, whatever the error: the
    fallback text is never sent.  Every answer other than 201 leaves the
    store as it was, and a 201 comes with the record in front of the log. *)
Theorem createTransferHandler_outcomes (clk : TransferClock) (method : string)
    (body : TransferRequest) (st : Store) :
  let r := createTransferHandler clk method body st in
  (method ≠ "POST" →
   r = (st, mkResponse 405 (ErrorBody "Method not allowed"))) ∧
  (method = "POST" → ∀ st' record stock2,
     performStockTransfer clk body st = (st', inr (record, stock2)) →
     r = (st', mkResponse 201 (TransferBody record))) ∧
  (method = "POST" → ∀ st' e,
     performStockTransfer clk body st = (st', inl e) →
     r = (st, mkResponse 400 (ErrorBody (message e)))) ∧
  (res_status (snd r) ≠ 201 → fst r = st) ∧
  (res_status (snd r) = 201 →
   ∃ record, res_body (snd r) = TransferBody record ∧
             transfers (fst r) = record :: transfers st).
Proof.
  unfold createTransferHandler. rewrite eqb_method. cbv zeta.
  split; [| split; [| split; [| split]]].
  - intros Hne. by rewrite bool_decide_eq_false_2.
  - intros -> st' record stock2 Hrun. simpl. by rewrite Hrun.
  - intros -> st' e Hrun. simpl. rewrite Hrun, message_nonempty.
    by apply performStockTransfer_error_unchanged in Hrun as ->.
  - case_bool_decide; simpl; [| done].
    destruct (performStockTransfer clk body st) as [st' [e | [record stock2]]] eqn:Hrun;
      simpl; [| done].
    intros _. by apply performStockTransfer_error_unchanged in Hrun.
  - case_bool_decide; simpl; [| done].
    destruct (performStockTransfer clk body st) as [st' [e | [record stock2]]] eqn:Hrun;
      simpl; [done |].
    intros _. exists record. split; [reflexivity |].
    apply performStockTransfer_inv in Hrun.
    destruct Hrun as (? & ? & ? & ? & ? & ? & _ & _ & _ & _ & _ & _ & _ & ->).
    reflexivity.
Qed.

Lemma createTransferHandler_outcomes_witness :
  createTransferHandler Sample.clock "GET"
    (mkRequest (Finite 1) (Finite 1) (Finite 2) (Finite 20)) Sample.store
  = (Sample.store, mkResponse 405 (ErrorBody "Method not allowed")) ∧
  createTransferHandler Sample.clock "POST"
    (mkRequest (Finite 1) (Finite 1) (Finite 2) (Finite 50)) Sample.store
  = (Sample.store,
     mkResponse 400 (ErrorBody "Insufficient stock in source warehouse")).
Proof.
  split.
  - apply (createTransferHandler_outcomes Sample.clock "GET"). discriminate.
  - pose proof (createTransferHandler_outcomes Sample.clock "POST"
                  (mkRequest (Finite 1) (Finite 1) (Finite 2) (Finite 50))
                  Sample.store) as (_ & _ & H & _).
    exact (H eq_refl Sample.store InsufficientStock eq_refl).
Defined.

(** X19.  The alerts route.  GET always answers 200 with the collection the
    reconciler saved.  POST answers 400 without reading the store when the
    id or the status is absent or empty, 500 with "Alert not found" for an
    id that no alert carries and 500 with "Invalid workflow status" for an
    unknown status of an existing alert; any other method gets 405.  Every
    answer other than 200 leaves the store as it was, and no answer changes
    the catalog, the ledger or the transfer log. *)
Theorem alertsHandler_outcomes (now method : string) (body : AlertsPostBody)
    (st : Store) :
  let r := alertsHandler now method body st in
  (method = "GET" →
   r = (fst (generateAlerts now st),
        mkResponse 200 (AlertsBody (alerts_after_generate now st)))) ∧
  (method = "POST" →
   truthy (post_id body) = false ∨ truthy (post_workflowStatus body) = false →
   r = (st, mkResponse 400 (ErrorBody "id and workflowStatus are required"))) ∧
  (method = "POST" → ∀ id workflowStatus,
     post_id body = Some id → post_workflowStatus body = Some workflowStatus →
     id ≠ "" → workflowStatus ≠ "" →
     (∀ a, a ∈ alerts st → Alert.id a ≠ id) →
     r = (st, mkResponse 500 (ErrorBody "Alert not found"))) ∧
  (method = "POST" → ∀ id workflowStatus,
     post_id body = Some id → post_workflowStatus body = Some workflowStatus →
     id ≠ "" → workflowStatus ∉ "" :: valid →
     (∃ a, a ∈ alerts st ∧ Alert.id a = id) →
     r = (st, mkResponse 500 (ErrorBody "Invalid workflow status"))) ∧
  (method ≠ "GET" → method ≠ "POST" →
   r = (st, mkResponse 405 (ErrorBody "Method not allowed"))) ∧
  (res_status (snd r) ≠ 200 → fst r = st) ∧
  (products (fst r) = products st ∧ warehouses (fst r) = warehouses st ∧
   stock (fst r) = stock st ∧ transfers (fst r) = transfers st).
Proof.
  assert (∀ s : string, s ≠ "" → truthy (Some s) = true) as Htruthy.
  { intros s Hs. simpl. destruct (String.eqb_spec s ""); done. }
  unfold alertsHandler. rewrite !eqb_method. cbv zeta.
  split; [| split; [| split; [| split; [| split; [| split]]]]].
  - intros ->. rewrite bool_decide_eq_true_2 by done.
    unfold alerts_after_generate. rewrite generateAlerts_run. reflexivity.
  - intros -> Hmissing.
    rewrite bool_decide_eq_false_2, bool_decide_eq_true_2 by done.
    destruct (post_id body) as [id|], (post_workflowStatus body) as [ws|];
      try reflexivity.
    cbv beta iota. destruct Hmissing as [-> | ->]; [reflexivity |].
    by rewrite orb_true_r.
  - intros -> id ws -> -> Hid Hws Hnone.
    rewrite bool_decide_eq_false_2, bool_decide_eq_true_2 by done.
    cbv beta iota. rewrite !Htruthy by done. cbn [negb orb].
    unfold updateAlertStatus. run_M.
    rewrite (list_find_absent (fun a => Alert.id a = id)) by done. reflexivity.
  - intros -> id ws -> -> Hid Hws Hex.
    apply not_elem_of_cons in Hws as [Hws Hinvalid].
    rewrite bool_decide_eq_false_2, bool_decide_eq_true_2 by done.
    cbv beta iota. rewrite !Htruthy by done. cbn [negb orb].
    unfold updateAlertStatus. run_M.
    apply (list_find_is_Some (fun a => Alert.id a = id)) in Hex as [[i a] ->].
    rewrite bool_decide_eq_false_2 by done. reflexivity.
  - intros Hget Hpost. by rewrite !bool_decide_eq_false_2.
  - case_bool_decide.
    { rewrite generateAlerts_run. simpl. done. }
    case_bool_decide; [| done].
    destruct (post_id body) as [id|], (post_workflowStatus body) as [ws|];
      try done.
    destruct (negb _ || negb _); [done |].
    destruct (updateAlertStatus now id ws (post_comment body) st)
      as [st' [e | a]] eqn:Hrun; simpl; [| done].
    intros _. exact (updateAlertStatus_inv _ _ _ _ _ _ _ Hrun).
  - case_bool_decide.
    { rewrite generateAlerts_run. simpl. done. }
    case_bool_decide; [| done].
    destruct (post_id body) as [id|], (post_workflowStatus body) as [ws|];
      try done.
    destruct (negb _ || negb _); [done |].
    destruct (updateAlertStatus now id ws (post_comment body) st)
      as [st' [e | a]] eqn:Hrun; simpl.
    + by apply updateAlertStatus_inv in Hrun as ->.
    + apply updateAlertStatus_inv in Hrun as (i & alert & _ & _ & _ & ->). done.
Qed.

Lemma alertsHandler_outcomes_witness :
  alertsHandler Sample.t2 "POST"
    (mkAlertsPost (Some "A-unknown") (Some "ORDERED") None) Sample.store_resolved
  = (Sample.store_resolved, mkResponse 500 (ErrorBody "Alert not found")) ∧
  alertsHandler Sample.t2 "POST"
    (mkAlertsPost (Some "A-unknown") None None) Sample.store_resolved
  = (Sample.store_resolved,
     mkResponse 400 (ErrorBody "id and workflowStatus are required")).
Proof.
  split.
  - pose proof (alertsHandler_outcomes Sample.t2 "POST"
                  (mkAlertsPost (Some "A-unknown") (Some "ORDERED") None)
                  Sample.store_resolved) as (_ & _ & H & _).
    apply (H eq_refl "A-unknown" "ORDERED" eq_refl eq_refl);
      [discriminate | discriminate |].
    intros a Ha. apply list_elem_of_singleton in Ha. subst a. discriminate.
  - pose proof (alertsHandler_outcomes Sample.t2 "POST"
                  (mkAlertsPost (Some "A-unknown") None None)
                  Sample.store_resolved) as (_ & H & _).
    apply (H eq_refl). right. reflexivity.
Defined.

Lemma performStockTransfer_catalog (clk : TransferClock) (req : TransferRequest)
    (st st' : Store) (record : TransferRecord.t) (stock2 : list StockLine.t) :
  performStockTransfer clk req st = (st', inr (record, stock2)) →
  is_Some (list_find (fun p => Product.id p = TransferRecord.productId record)
             (products st)) ∧
  is_Some (list_find (fun w => Warehouse.id w = TransferRecord.fromWarehouseId record)
             (warehouses st)) ∧
  is_Some (list_find (fun w => Warehouse.id w = TransferRecord.toWarehouseId record)
             (warehouses st)).
Proof.
  unfold performStockTransfer. destruct st as [ps ws sk ts als].
  destruct req as [p f t q]. run_M.
  intros H.
  repeat (case_match; simplify_eq; try done).
  all: simpl; repeat match goal with
       | H : negb (bool_decide _) = false |- _ =>
           apply negb_false_iff, bool_decide_eq_true in H
       end; eauto.
Qed.


